(** * Coin98 wallet adapter (solana/src/adapter.ts)

    A shallow embedding of [Coin98WalletAdapter] and the properties of its
    connection and signing protocol.

    The adapter is a shim between the wallet-adapter contract and the
    object a browser extension injects at [window.coin98.sol].  Everything
    the adapter does not own (the page, the extension, the transaction
    objects, the PublicKey and bs58 libraries) is gathered in the [Host]
    interface; the adapter's methods are written over it in a
    state-and-exception monad that also records, in order, every call made
    to the host, every event emitted and every sleep.  The platform's
    TextEncoder and TextDecoder are written out, on strings of UTF-16
    code units, as the Encoding Standard defines them.

    A method call is run to its end before the next one is made, as its
    caller awaits it.  The [ready] getter and the polling the constructor
    starts take no part in what follows and are left out. *)

From Stdlib Require Import String List Bool ZArith Lia.
From Stdlib Require Import Strings.Byte.
From ExtLib Require Import Structures.Monad.
Import ListNotations.
Import MonadNotation.
Local Open Scope monad_scope.
Local Open Scope string_scope.
Local Open Scope list_scope.

Set Implicit Arguments.

(** ** Text: JavaScript strings, TextEncoder and TextDecoder *)

Section Text.

Local Open Scope Z_scope.

(** A JavaScript string is a sequence of UTF-16 code units. *)
Definition jsstring : Type := list Z.

(** The string of an ASCII literal. *)
Definition js (s : string) : jsstring :=
  map (fun b => Z.of_N (Byte.to_N b)) (list_byte_of_string s).


(** A leading (high) surrogate, a trailing (low) surrogate. *)
Definition is_lead (u : Z) : bool := (0xD800 <=? u) && (u <=? 0xDBFF).
Definition is_trail (u : Z) : bool := (0xDC00 <=? u) && (u <=? 0xDFFF).

(** The code points of a string read as a scalar value string: a
    surrogate pair is its code point, and a surrogate that is not part
    of a pair is replaced by U+FFFD. *)
Fixpoint scalar_values (s : jsstring) : list Z :=
  match s with
  | [] => []
  | u :: rest =>
      if is_lead u then
        match rest with
        | v :: rest' =>
            if is_trail v
            then (0x10000 + (u - 0xD800) * 0x400 + (v - 0xDC00)) :: scalar_values rest'
            else 0xFFFD :: scalar_values rest
        | [] => [0xFFFD]
        end
      else if is_trail u then 0xFFFD :: scalar_values rest
      else u :: scalar_values rest
  end.

(** The code units of a code point. *)
Definition code_units (c : Z) : list Z :=
  if c <? 0x10000 then [c]
  else [0xD800 + (c - 0x10000) / 0x400; 0xDC00 + (c - 0x10000) mod 0x400].

(** A string whose surrogates all come in pairs. *)
Fixpoint well_formed (s : jsstring) : bool :=
  match s with
  | [] => true
  | u :: rest =>
      if is_lead u then
        match rest with
        | v :: rest' => is_trail v && well_formed rest'
        | [] => false
        end
      else negb (is_trail u) && (0 <=? u) && (u <=? 0xFFFF) && well_formed rest
  end.

(** The UTF-8 encoder: the bytes of a code point.  The first byte is
    [(c >> 6n) + offset] and each following byte [0x80 | (c >> 6k & 0x3F)]. *)
Definition utf8_bytes (c : Z) : list Z :=
  if c <? 0x80 then [c]
  else if c <? 0x800 then [0xC0 + c / 0x40; 0x80 + c mod 0x40]
  else if c <? 0x10000 then
    [0xE0 + c / 0x1000; 0x80 + (c / 0x40) mod 0x40; 0x80 + c mod 0x40]
  else
    [0xF0 + c / 0x40000; 0x80 + (c / 0x1000) mod 0x40;
     0x80 + (c / 0x40) mod 0x40; 0x80 + c mod 0x40].

(** The state of the UTF-8 decoder. *)
Record Utf8 : Type := mkUtf8 {
  code_point : Z;
  bytes_seen : Z;
  bytes_needed : Z;
  lower_boundary : Z;
  upper_boundary : Z
}.

Definition utf8_idle : Utf8 :=
  {| code_point := 0; bytes_seen := 0; bytes_needed := 0;
     lower_boundary := 0x80; upper_boundary := 0xBF |}.

(** A byte met when no byte is needed: an ASCII byte is its code point,
    a lead byte opens a sequence (keeping [b & 0x1F], [b & 0xF] or
    [b & 0x7]), anything else is an error, U+FFFD. *)
Definition utf8_lead (b : Z) : Utf8 * list Z :=
  if (0 <=? b) && (b <=? 0x7F) then (utf8_idle, [b])
  else if (0xC2 <=? b) && (b <=? 0xDF) then
    ({| code_point := b mod 0x20; bytes_seen := 0; bytes_needed := 1;
        lower_boundary := 0x80; upper_boundary := 0xBF |}, [])
  else if (0xE0 <=? b) && (b <=? 0xEF) then
    ({| code_point := b mod 0x10; bytes_seen := 0; bytes_needed := 2;
        lower_boundary := if b =? 0xE0 then 0xA0 else 0x80;
        upper_boundary := if b =? 0xED then 0x9F else 0xBF |}, [])
  else if (0xF0 <=? b) && (b <=? 0xF4) then
    ({| code_point := b mod 0x8; bytes_seen := 0; bytes_needed := 3;
        lower_boundary := if b =? 0xF0 then 0x90 else 0x80;
        upper_boundary := if b =? 0xF4 then 0x8F else 0xBF |}, [])
  else (utf8_idle, [0xFFFD]).

(** One byte through the decoder: the new state and the code points put
    out.  A byte outside the boundaries ends the sequence in error and is
    read again as the start of the next; a byte within them adds its six
    bits, [(code point << 6) | (b & 0x3F)]. *)
Definition utf8_step (st : Utf8) (b : Z) : Utf8 * list Z :=
  if bytes_needed st =? 0 then utf8_lead b
  else if (b <? lower_boundary st) || (upper_boundary st <? b) then
    let (st', out) := utf8_lead b in (st', 0xFFFD :: out)
  else
    let c := code_point st * 0x40 + b mod 0x40 in
    if bytes_seen st + 1 =? bytes_needed st then (utf8_idle, [c])
    else
      ({| code_point := c; bytes_seen := bytes_seen st + 1;
          bytes_needed := bytes_needed st;
          lower_boundary := 0x80; upper_boundary := 0xBF |}, []).

(** The decoder over a byte sequence; a sequence cut short by the end of
    the input is an error. *)
Fixpoint utf8_run (st : Utf8) (bytes : list Z) : list Z :=
  match bytes with
  | [] => if bytes_needed st =? 0 then [] else [0xFFFD]
  | b :: rest => let (st', out) := utf8_step st b in out ++ utf8_run st' rest
  end.

Definition utf8_decode (bytes : list Z) : list Z := utf8_run utf8_idle bytes.

(** A byte order mark at the head of the output is dropped. *)
Definition strip_bom (cps : list Z) : list Z :=
  match cps with
  | c :: rest => if c =? 0xFEFF then rest else cps
  | [] => []
  end.

Definition Z_of_byte (b : byte) : Z := Z.of_N (Byte.to_N b).

Definition byte_of_Z (z : Z) : byte :=
  match Byte.of_N (Z.to_N z) with
  | Some b => b
  | None => Byte.x00
  end.

(** [new TextEncoder().encode(string)] *)
Definition TextEncoder_encode (s : jsstring) : list byte :=
  map byte_of_Z (flat_map utf8_bytes (scalar_values s)).

(** [new TextDecoder("utf-8").decode(bytes)]: errors are replaced, not
    raised, and the byte order mark is not kept. *)
Definition TextDecoder_decode (bytes : list byte) : jsstring :=
  flat_map code_units (strip_bom (utf8_decode (map Z_of_byte bytes))).


(** The string starts with U+FEFF. *)
Definition has_bom (s : jsstring) : bool :=
  match s with
  | u :: _ => u =? 0xFEFF
  | [] => false
  end.

(** A Unicode scalar value: a code point that is not a surrogate. *)
Definition scalar (c : Z) : Prop :=
  0 <= c <= 0x10FFFF /\ (c < 0xD800 \/ 0xDFFF < c).

End Text.

(** ** The host environment *)

(** [type ResponseType = SIGN_REQUEST & SIGN_MESSAGE].  The strings the
    adapter only hands on are kept as [string]; [sig], which goes through
    the text encoder, is kept as the code units it is made of. *)
Record ResponseType : Type := mkResponse {
  signature : string;
  publicKey : string;
  address : string;
  msg : string;
  sig : jsstring
}.

(** Everything outside the adapter.  [world] is the state of the page, of
    the extension and of the transaction objects; an awaited call is a
    transformer of it that either rejects with a [thrown] value ([inl]) or
    resolves ([inr]).  [Coin98Wallet] and [Transaction] are object
    references: the objects themselves live in the world.  Every call
    of a method of the wallet or of a library may throw, [isConnected()]
    included; what a call gives when it does not throw is taken at its
    declared type. *)
Class Host : Type := {
  world : Type;
  thrown : Type;
  Coin98Wallet : Type;
  PublicKey : Type;
  Transaction : Type;
  (** [error?.message] *)
  error_message : thrown -> option string;
  (** [typeof window !== 'undefined' && window.coin98?.sol], [None] when falsy *)
  window_coin98_sol : world -> option Coin98Wallet;
  (** [wallet.isCoin98], read as a truth value *)
  isCoin98 : Coin98Wallet -> world -> bool;
  (** [wallet.isConnected()] *)
  wallet_isConnected : Coin98Wallet -> world -> (thrown + bool) * world;
  (** [wallet.connect()] *)
  wallet_connect : Coin98Wallet -> world -> (thrown + list string) * world;
  (** [wallet.disconnect()] *)
  wallet_disconnect : Coin98Wallet -> world -> (thrown + unit) * world;
  (** [wallet.request({ method, params })], the parameters being
      transactions ([inl]) or strings ([inr]) *)
  wallet_request :
    Coin98Wallet -> string -> list (Transaction + jsstring) -> world ->
    (thrown + ResponseType) * world;
  (** [new PublicKey(value)]; the value is [undefined] ([None]) when the
      account list was empty *)
  new_PublicKey : option string -> thrown + PublicKey;
  (** [bs58.decode(string)] *)
  bs58_decode : string -> thrown + list byte;
  (** [transaction.addSignature(publicKey, signature)], in place *)
  addSignature : Transaction -> PublicKey -> list byte -> world -> (thrown + unit) * world
}.

Section Adapter.

Context {H : Host}.

(** ** Errors, events and adapter state *)

(** What the adapter raises and emits as 'error': one of the error kinds
    it constructs, with the [(message, error)] arguments of the three
    wrapping kinds, or a value thrown by the host that it passes on as it
    is. *)
Inductive WalletError : Type :=
| WalletNotFoundError
| WalletNotInstalledError
| WalletNotConnectedError
| WalletAccountError (message : option string) (error : thrown)
| WalletPublicKeyError (message : option string) (error : thrown)
| WalletSignTransactionError (message : option string) (error : thrown)
| Unwrapped (error : thrown).

(** The calls the adapter makes to the host, with their arguments. *)
Inductive HostCall : Type :=
| isConnected_ (wallet : Coin98Wallet)
| connect_ (wallet : Coin98Wallet)
| disconnect_ (wallet : Coin98Wallet)
| request_ (wallet : Coin98Wallet) (method : string) (params : list (Transaction + jsstring))
| PublicKey_ (value : option string)
| bs58_decode_ (s : string)
| addSignature_ (transaction : Transaction) (publicKey : PublicKey) (signature : list byte).

(** What an observer of one run sees, in order: the events emitted to
    the listeners, the calls made to the host and those of them that
    failed, and the timers awaited. *)
Inductive Event : Type :=
| Emit_connect                                  (* this.emit('connect') *)
| Emit_disconnect                               (* this.emit('disconnect') *)
| Emit_error (error : WalletError)              (* this.emit('error', error) *)
| Call (c : HostCall)
| Failed (c : HostCall) (error : thrown)
| Sleep (ms : Z).

(** The three private fields of [Coin98WalletAdapter], and the world. *)
Record Adapter : Type := mkAdapter {
  _connecting : bool;
  _wallet : option Coin98Wallet;
  _publicKey : option PublicKey;
  env : world
}.

(** The constructor: [_connecting = false], [_wallet = null],
    [_publicKey = null]. *)
Definition constructor (w : world) : Adapter :=
  {| _connecting := false; _wallet := None; _publicKey := None; env := w |}.

Definition set_connecting (b : bool) (a : Adapter) : Adapter :=
  {| _connecting := b; _wallet := _wallet a; _publicKey := _publicKey a; env := env a |}.

Definition set_wallet (o : option Coin98Wallet) (a : Adapter) : Adapter :=
  {| _connecting := _connecting a; _wallet := o; _publicKey := _publicKey a; env := env a |}.

Definition set_publicKey (o : option PublicKey) (a : Adapter) : Adapter :=
  {| _connecting := _connecting a; _wallet := _wallet a; _publicKey := o; env := env a |}.

Definition set_env (w : world) (a : Adapter) : Adapter :=
  {| _connecting := _connecting a; _wallet := _wallet a; _publicKey := _publicKey a; env := w |}.

(** ** The monad of async methods *)

(** One run of a method: how it ended ([inl] a raised value, [inr] a
    returned one), the state it left, and what it did, oldest first. *)
Record Run (X A : Type) : Type := mkRun {
  outcome : X + A;
  final : Adapter;
  trace : list Event
}.

Definition M (X A : Type) : Type := Adapter -> Run X A.

Definition M_ret {X A} (a : A) : M X A :=
  fun s => {| outcome := inr a; final := s; trace := [] |}.

Definition M_bind {X A B} (c : M X A) (k : A -> M X B) : M X B :=
  fun s =>
    match c s with
    | {| outcome := inl x; final := s'; trace := t |} =>
        {| outcome := inl x; final := s'; trace := t |}
    | {| outcome := inr a; final := s'; trace := t |} =>
        match k a s' with
        | {| outcome := o; final := s''; trace := t' |} =>
            {| outcome := o; final := s''; trace := t ++ t' |}
        end
    end.

#[export] Instance Monad_M {X} : Monad (M X) :=
  {| ret := @M_ret X; bind := @M_bind X |}.

(** [throw x] *)
Definition throw {X A} (x : X) : M X A :=
  fun s => {| outcome := inl x; final := s; trace := [] |}.

(** [try { c } catch (error) { handler }] *)
Definition try_catch {X Y A} (c : M X A) (handler : X -> M Y A) : M Y A :=
  fun s =>
    match c s with
    | {| outcome := inr a; final := s'; trace := t |} =>
        {| outcome := inr a; final := s'; trace := t |}
    | {| outcome := inl x; final := s'; trace := t |} =>
        match handler x s' with
        | {| outcome := o; final := s''; trace := t' |} =>
            {| outcome := o; final := s''; trace := t ++ t' |}
        end
    end.

(** [try { c } finally { f }], for a [finally] block that cannot raise *)
Definition try_finally {X A} (c : M X A) (f : Adapter -> Adapter) : M X A :=
  fun s =>
    match c s with
    | {| outcome := o; final := s'; trace := t |} =>
        {| outcome := o; final := f s'; trace := t |}
    end.

Definition get {X} : M X Adapter :=
  fun s => {| outcome := inr s; final := s; trace := [] |}.

Definition modify {X} (f : Adapter -> Adapter) : M X unit :=
  fun s => {| outcome := inr tt; final := f s; trace := [] |}.

Definition record {X} (e : Event) : M X unit :=
  fun s => {| outcome := inr tt; final := s; trace := [e] |}.

(** [this.emit(...)] *)
Definition emit {X} (e : Event) : M X unit := record e.

(** The record of one host call [c] that ended in [res]. *)
Definition observed {A} (c : HostCall) (res : thrown + A) : list Event :=
  match res with
  | inl error => [Call c; Failed c error]
  | inr _ => [Call c]
  end.

(** [await f(...)] for the host operation [f] behind the call [c]; a
    rejection is raised. *)
Definition await {A} (c : HostCall) (f : world -> (thrown + A) * world) : M thrown A :=
  fun s =>
    let (res, w) := f (env s) in
    {| outcome := res; final := set_env w s; trace := observed c res |}.

(** A library call that may raise but leaves the world as it is. *)
Definition call {A} (c : HostCall) (res : thrown + A) : M thrown A :=
  fun s => {| outcome := res; final := s; trace := observed c res |}.

(** ** The adapter *)

(** [get publicKey()] *)
Definition get_publicKey (a : Adapter) : option PublicKey := _publicKey a.

(** [get connecting()] *)
Definition connecting (a : Adapter) : bool := _connecting a.

(** [get connected() { return !!this._wallet?.isConnected(); }]; what
    [isConnected()] throws, the getter throws. *)
Definition connected : M thrown bool :=
  fun s =>
    match _wallet s with
    | None => {| outcome := inr false; final := s; trace := [] |}
    | Some wallet => await (isConnected_ wallet) (wallet_isConnected wallet) s
    end.

(** A computation that stands in a method outside any inner [try]: what
    it throws goes on as it is. *)
Definition unwrapped {A} (c : M thrown A) : M WalletError A :=
  fun s =>
    match c s with
    | {| outcome := inl x; final := s'; trace := t |} =>
        {| outcome := inl (Unwrapped x); final := s'; trace := t |}
    | {| outcome := inr a; final := s'; trace := t |} =>
        {| outcome := inr a; final := s'; trace := t |}
    end.

(** The body of the [try] block of [connect], after the early return. *)
Definition connect_body : M WalletError unit :=
  modify (set_connecting true) ;;
  s <- get ;;
  match window_coin98_sol (env s) with
  | None => throw WalletNotFoundError
  | Some wallet =>
      if negb (isCoin98 wallet (env s)) then throw WalletNotInstalledError
      else
        accounts <- try_catch (await (connect_ wallet) (wallet_connect wallet))
                      (fun error => throw (WalletAccountError (error_message error) error)) ;;
        let account := hd_error accounts in
        publicKey <- try_catch (call (PublicKey_ account) (new_PublicKey account))
                       (fun error => throw (WalletPublicKeyError (error_message error) error)) ;;
        modify (set_wallet (Some wallet)) ;;
        modify (set_publicKey (Some publicKey)) ;;
        emit Emit_connect
  end.

(** [async connect(): Promise<void>] *)
Definition connect : M WalletError unit :=
  try_finally
    (try_catch
       (c <- unwrapped connected ;;
        s <- get ;;
        if c || connecting s then ret tt
        else connect_body)
       (fun error => emit (Emit_error error) ;; throw error))
    (set_connecting false).

(** [async disconnect(): Promise<void>]; it has no handler, so what it
    raises is what [wallet.disconnect()] rejected with. *)
Definition disconnect : M thrown unit :=
  s <- get ;;
  match _wallet s with
  | Some wallet =>
      modify (set_wallet None) ;;
      modify (set_publicKey None) ;;
      await (disconnect_ wallet) (wallet_disconnect wallet)
  | None => ret tt
  end ;;
  emit Emit_disconnect.

(** [async signTransaction(transaction)]; the transaction is signed in
    place and the same reference is returned. *)
Definition signTransaction (transaction : Transaction) : M WalletError Transaction :=
  try_catch
    (s <- get ;;
     match _wallet s with
     | None => throw WalletNotConnectedError
     | Some wallet =>
         try_catch
           (response <- await (request_ wallet "sol_sign" [inl transaction])
                          (wallet_request wallet "sol_sign" [inl transaction]) ;;
            publicKey <- call (PublicKey_ (Some (publicKey response)))
                           (new_PublicKey (Some (publicKey response))) ;;
            signature <- call (bs58_decode_ (signature response))
                           (bs58_decode (signature response)) ;;
            await (addSignature_ transaction publicKey signature)
              (addSignature transaction publicKey signature) ;;
            ret transaction)
           (fun error => throw (WalletSignTransactionError (error_message error) error))
     end)
    (fun error => emit (Emit_error error) ;; throw error).

(** [sleep(ms = 500)] *)
Definition sleep {X} (ms : option Z) : M X unit :=
  record (Sleep (match ms with Some n => n | None => 500%Z end)).

(** The [for ... of] loop of [signAllTransactions], with the array
    [signedTransactions] built so far. *)
Fixpoint signAllTransactions_loop (transactions signedTransactions : list Transaction)
  : M WalletError (list Transaction) :=
  match transactions with
  | [] => ret signedTransactions
  | transaction :: rest =>
      signedTransaction <- signTransaction transaction ;;
      let signedTransactions := signedTransactions ++ [signedTransaction] in
      sleep None ;;
      signAllTransactions_loop rest signedTransactions
  end.

(** [async signAllTransactions(transactions)] *)
Definition signAllTransactions (transactions : list Transaction)
  : M WalletError (list Transaction) :=
  signAllTransactions_loop transactions [].

(** [async signMessage(message: Uint8Array)] *)
Definition signMessage (message : list byte) : M WalletError (list byte) :=
  try_catch
    (s <- get ;;
     match _wallet s with
     | None => throw WalletNotConnectedError
     | Some wallet =>
         try_catch
           (let decodedMessage := TextDecoder_decode message in
            response <- await (request_ wallet "sol_sign" [inr decodedMessage])
                          (wallet_request wallet "sol_sign" [inr decodedMessage]) ;;
            let signature := sig response in
            ret (TextEncoder_encode signature))
           (fun error => throw (WalletSignTransactionError (error_message error) error))
     end)
    (fun error => emit (Emit_error error) ;; throw error).

End Adapter.

Arguments mkRun {H X A} _ _ _.

(** ** Histories of calls *)

Section Histories.

Context {H : Host}.

(** The public methods, with their arguments. *)
Inductive Method : Type :=
| m_connect
| m_disconnect
| m_signTransaction (transaction : Transaction)
| m_signAllTransactions (transactions : list Transaction)
| m_signMessage (message : list byte).

Definition returned {X A} (r : Run X A) : bool :=
  match outcome r with inr _ => true | inl _ => false end.

(** The state a call leaves, and whether it returned (rather than raised). *)
Definition invoke (m : Method) (s : Adapter) : Adapter * bool :=
  match m with
  | m_connect => let r := connect s in (final r, returned r)
  | m_disconnect => let r := disconnect s in (final r, returned r)
  | m_signTransaction t => let r := signTransaction t s in (final r, returned r)
  | m_signAllTransactions ts => let r := signAllTransactions ts s in (final r, returned r)
  | m_signMessage b => let r := signMessage b s in (final r, returned r)
  end.

(** The states an adapter goes through, each with the calls made on it
    so far, newest first, and whether each returned.  Every call is
    awaited before the next one is made; between two calls the world may
    change in any way. *)
Inductive reachable : list (Method * bool) -> Adapter -> Prop :=
| reachable_new (w : world) :
    reachable [] (constructor w)
| reachable_call (h : list (Method * bool)) (s : Adapter) (m : Method) :
    reachable h s ->
    reachable ((m, snd (invoke m s)) :: h) (fst (invoke m s))
| reachable_world (h : list (Method * bool)) (s : Adapter) (w : world) :
    reachable h s ->
    reachable h (set_env w s).

(** A [connect()] has returned since the last [disconnect()]. *)
Fixpoint connected_since_disconnect (h : list (Method * bool)) : bool :=
  match h with
  | [] => false
  | (m_connect, true) :: _ => true
  | (m_disconnect, _) :: _ => false
  | _ :: h' => connected_since_disconnect h'
  end.

(** [publicKey] and the wallet handle are null together. *)
Definition coherent (s : Adapter) : Prop :=
  _publicKey s = None <-> _wallet s = None.

(** The transaction a signing request is for. *)
Definition request_of (e : Event) : list Transaction :=
  match e with
  | Call (request_ _ _ [inl transaction]) => [transaction]
  | _ => []
  end.

(** The transactions of the signing requests of a trace, in order. *)
Definition signing_order (t : list Event) : list Transaction :=
  flat_map request_of t.

Definition is_connection (e : Event) : bool :=
  match e with
  | Call (connect_ _) => true
  | _ => false
  end.

(** The number of [wallet.connect()] calls of a trace. *)
Definition connections (t : list Event) : nat :=
  length (filter is_connection t).

(** The successive runs of [signTransaction] over a list, each started in
    the state the one before left, up to the first that raises. *)
Fixpoint sign_each (transactions : list Transaction) (s : Adapter)
  : list (Run WalletError Transaction) :=
  match transactions with
  | [] => []
  | transaction :: rest =>
      let r := signTransaction transaction s in
      r :: (if returned r then sign_each rest (final r) else [])
  end.

(** What a run of [signTransaction] contributes to [signAllTransactions]:
    itself and, when it returned, the sleep after it. *)
Definition then_sleep (r : Run WalletError Transaction) : list Event :=
  trace r ++ (if returned r then [Sleep 500] else []).

(** [s'] has the fields of [s], the world apart. *)
Definition same_fields (s s' : Adapter) : Prop :=
  _connecting s' = _connecting s /\ _wallet s' = _wallet s /\ _publicKey s' = _publicKey s.

(** A run that raises has emitted what it raises as its last act. *)
Definition raise_emitted {A} (r : Run WalletError A) : Prop :=
  forall error, outcome r = inl error ->
  exists before, trace r = before ++ [Emit_error error].

(** Every failure of a host call during the run ends it, raising the
    failure wrapped in the kind that goes with the call. *)
Definition failures_wrapped {A}
    (kind : HostCall -> option string -> thrown -> WalletError)
    (r : Run WalletError A) : Prop :=
  forall c e, In (Failed c e) (trace r) ->
  outcome r = inl (kind c (error_message e) e).

(** What [connect] raises for a failure: WalletPublicKeyError around the
    PublicKey constructor, WalletAccountError around [wallet.connect()],
    and the failure itself, not wrapped, for [isConnected()], which is
    called outside the inner [try] blocks. *)
Definition connect_kind (c : HostCall) : option string -> thrown -> WalletError :=
  match c with
  | PublicKey_ _ => WalletPublicKeyError
  | isConnected_ _ => fun _ error => Unwrapped error
  | _ => WalletAccountError
  end.

(** The signing methods wrap everything in WalletSignTransactionError. *)
Definition sign_kind (c : HostCall) : option string -> thrown -> WalletError :=
  WalletSignTransactionError.

End Histories.

(** ** What a trace shows *)

Section Observations.

Context {H : Host}.

Definition is_emit (e : Event) : bool :=
  match e with
  | Emit_connect | Emit_disconnect | Emit_error _ => true
  | _ => false
  end.

(** The events the listeners of the adapter receive, in order. *)
Definition emitted (t : list Event) : list Event :=
  filter is_emit t.

Definition sleep_of (e : Event) : list Z :=
  match e with
  | Sleep ms => [ms]
  | _ => []
  end.

(** The timers awaited, in order, in milliseconds. *)
Definition sleeps (t : list Event) : list Z :=
  flat_map sleep_of t.

(** The runs of a list that returned. *)
Definition completed {X A} (runs : list (Run X A)) : list (Run X A) :=
  filter returned runs.

End Observations.

(** ** The constructor and [ready] *)

(** A JavaScript number, as far as its truth value goes: [finite m e] is
    the double [m * 2^e] (both zeros are [finite 0 _]). *)
Inductive number : Type :=
| finite (m e : Z)
| NaN
| Infinity (negative : bool).

(** [!!n] *)
Definition truthy (n : number) : bool :=
  match n with
  | finite m _ => negb (m =? 0)%Z
  | NaN => false
  | Infinity _ => true
  end.

(** [v || d], for an optional number [v] *)
Definition or_else (v : option number) (d : number) : number :=
  match v with
  | Some n => if truthy n then n else d
  | None => d
  end.

(** [interface Coin98WalletAdapterConfig] *)
Record Coin98WalletAdapterConfig : Type := mkConfig {
  pollInterval : option number;
  pollCount : option number
}.

(** The global [window.coin98] itself, above [window.coin98.sol]:
    [window_coin98 w] is [typeof window !== 'undefined' && !!window.coin98],
    and [window.coin98?.sol] is undefined where that is false. *)
Class Window {H : Host} : Type := {
  window_coin98 : world -> bool;
  window_coin98_absent :
    forall w, window_coin98 w = false -> window_coin98_sol w = None
}.

Section Construction.

Context {H : Host} {W : Window}.

(** [get ready()] *)
Definition ready (a : Adapter) : bool := window_coin98 (env a).

(** The call [pollUntilReady(this, pollInterval, pollCount)] the
    constructor makes, if it makes it: [config = {}] by default, and
    [if (!this.ready) pollUntilReady(this, config.pollInterval || 1000,
    config.pollCount || 3)]. *)
Definition constructor_polls (config : option Coin98WalletAdapterConfig) (w : world)
  : option (number * number) :=
  let config :=
    match config with
    | Some c => c
    | None => {| pollInterval := None; pollCount := None |}
    end in
  let this := constructor w in
  if negb (ready this)
  then Some (or_else (pollInterval config) (finite 1000 0),
             or_else (pollCount config) (finite 3 0))
  else None.

End Construction.

(** ** A scripted extension

    A small host to run the adapter on: the page holds the answers the
    extension will give, and the signatures attached to transactions. *)

Module Scripted.

Record Page : Type := mkPage {
  injected : bool;                                 (* window.coin98.sol is present *)
  genuine : bool;                                  (* its isCoin98 flag *)
  reports_connected : string + bool;               (* what isConnected() answers, or throws *)
  connect_script : list (string + list string);    (* the results of the next connect() calls *)
  disconnect_error : option string;                (* what disconnect() rejects with, if it does *)
  request_script : list (string + ResponseType);   (* the results of the next request() calls *)
  signatures : list (nat * string * list byte)     (* attached by addSignature, newest first *)
}.

Definition base58_alphabet : string :=
  "123456789ABCDEFGHJKLMNPQRSTUVWXYZabcdefghijkmnopqrstuvwxyz".

Definition is_base58 (s : string) : bool :=
  forallb (fun c => existsb (Ascii.eqb c) (list_ascii_of_string base58_alphabet))
    (list_ascii_of_string s).

(** Accepts the base58 strings of the length of a 32-byte key. *)
Definition parse_key (value : option string) : string + string :=
  match value with
  | Some s =>
      if is_base58 s && (32 <=? String.length s)%nat && (String.length s <=? 44)%nat
      then inr s else inl "Invalid public key input"
  | None => inl "Invalid public key input"
  end.

Definition connect_step (p : Page) : (string + list string) * Page :=
  match connect_script p with
  | [] => (inl "User rejected the request", p)
  | res :: rest =>
      (res, {| injected := injected p; genuine := genuine p;
               reports_connected := reports_connected p;
               connect_script := rest;
               disconnect_error := disconnect_error p;
               request_script := request_script p;
               signatures := signatures p |})
  end.

Definition request_step (p : Page) : (string + ResponseType) * Page :=
  match request_script p with
  | [] => (inl "User rejected the request", p)
  | res :: rest =>
      (res, {| injected := injected p; genuine := genuine p;
               reports_connected := reports_connected p;
               connect_script := connect_script p;
               disconnect_error := disconnect_error p;
               request_script := rest;
               signatures := signatures p |})
  end.

Definition attach (t : nat) (key : string) (sg : list byte) (p : Page)
  : (string + unit) * Page :=
  (inr tt, {| injected := injected p; genuine := genuine p;
              reports_connected := reports_connected p;
              connect_script := connect_script p;
              disconnect_error := disconnect_error p;
              request_script := request_script p;
              signatures := (t, key, sg) :: signatures p |}).

(** Thrown values are errors with a message; there is one wallet object;
    keys are kept as their strings and transactions are numbered.  The
    base58 decoder is a stand-in that checks the alphabet and hands back
    the characters. *)
Definition host : Host := {|
  world := Page;
  thrown := string;
  Coin98Wallet := unit;
  PublicKey := string;
  Transaction := nat;
  error_message := Some;
  window_coin98_sol := fun p => if injected p then Some tt else None;
  isCoin98 := fun _ p => genuine p;
  wallet_isConnected := fun _ p => (reports_connected p, p);
  wallet_connect := fun _ => connect_step;
  wallet_disconnect := fun _ p =>
    (match disconnect_error p with Some e => inl e | None => inr tt end, p);
  wallet_request := fun _ _ _ => request_step;
  new_PublicKey := parse_key;
  bs58_decode := fun s =>
    if is_base58 s then inr (list_byte_of_string s) else inl "Non-base58 character";
  addSignature := attach
|}.

Definition key1 : string := "7EcDhSYGxXyscszYEp35KHN8vvw3svAuLKTzXwCFLtV1".

Definition response (key sg text : string) : ResponseType :=
  {| signature := sg; publicKey := key; address := key; msg := text; sig := js sg |}.

(** An installed extension that answers [isConnected()] with [c]. *)
Definition page (c : bool) (connects : list (string + list string))
    (requests : list (string + ResponseType)) (disconnect : option string) : Page :=
  {| injected := true; genuine := true; reports_connected := inr c;
     connect_script := connects; disconnect_error := disconnect;
     request_script := requests; signatures := [] |}.

(** The extension answers [isConnected()] with true and hands out [key1];
    it will sign twice and then refuse. *)
Definition page_ok : Page :=
  page true [inr [key1]]
    [inr (response key1 "3xSig" "hello"); inr (response key1 "5ySig" "hello");
     inl "User rejected the request"] None.

(** The extension answers [isConnected()] with false, and hands out
    [key1] each time it is asked to connect. *)
Definition page_off : Page := page false [inr [key1]; inr [key1]] [] None.

(** The extension hands out something that is not a key. *)
Definition page_bad : Page := page true [inr ["not-a-key"]] [] None.

(** The extension answers [isConnected()] with false, and hands out
    [key1], then something that is not a key. *)
Definition page_off_bad : Page := page false [inr [key1]; inr ["not-a-key"]] [] None.

(** The extension's own disconnect fails. *)
Definition page_boom : Page :=
  page true [inr [key1]] [] (Some "Extension context invalidated").

(** The extension refuses to connect. *)
Definition page_refuse : Page := page false [inl "User rejected the request"] [] None.

(** The adapter once [connect()] has run on a fresh adapter in [p]. *)
Definition connected_on (p : Page) : @Adapter host :=
  final (connect (H := host) (constructor (H := host) p)).

(** [window.coin98] is there exactly when the extension is injected. *)
Definition window : @Window host :=
  {| window_coin98 := fun p : @world host => injected p;
     window_coin98_absent := fun (p : @world host) (E : injected p = false) =>
       @eq_ind_r bool false (fun b : bool => (if b then Some tt else None) = None)
         eq_refl (injected p) E |}.

(** An answer whose signature string is an unpaired surrogate, one
    whose signature string starts with U+FEFF. *)
Definition response_surrogate : ResponseType :=
  {| signature := "3xSig"; publicKey := key1; address := key1; msg := "hello";
     sig := [0xD800%Z] |}.

Definition response_bom : ResponseType :=
  {| signature := "3xSig"; publicKey := key1; address := key1; msg := "hello";
     sig := [0xFEFF%Z; 0x41%Z] |}.

Definition page_surrogate : Page := page true [inr [key1]] [inr response_surrogate] None.

Definition page_bom : Page := page true [inr [key1]] [inr response_bom] None.

(** The stored wallet throws when asked [isConnected()]. *)
Definition page_throws : Page :=
  {| injected := true; genuine := true;
     reports_connected := inl "Extension context invalidated";
     connect_script := [inr [key1]; inr [key1]]; disconnect_error := None;
     request_script := []; signatures := [] |}.

(** No extension on the page. *)
Definition page_empty : Page :=
  {| injected := false; genuine := false; reports_connected := inr false;
     connect_script := []; disconnect_error := None;
     request_script := []; signatures := [] |}.

(** The extension signs once, refuses the second request, and would
    sign a third. *)
Definition page_refuses_second : Page :=
  page true [inr [key1]]
    [inr (response key1 "3xSig" "hello"); inl "User rejected the request";
     inr (response key1 "5ySig" "hello")] None.

End Scripted.

(** ** The text encoder and decoder *)

Section Text_facts.

Local Open Scope Z_scope.
Local Unset Implicit Arguments.

Ltac divmod := Z.to_euclidean_division_equations; lia.

(** Settles the comparisons of the goal that arithmetic decides. *)
Ltac settle :=
  repeat match goal with
  | |- context [?a <=? ?b] =>
      first [ rewrite (proj2 (Z.leb_le a b)) by divmod
            | rewrite (proj2 (Z.leb_gt a b)) by divmod ]
  | |- context [?a <? ?b] =>
      first [ rewrite (proj2 (Z.ltb_lt a b)) by divmod
            | rewrite (proj2 (Z.ltb_ge a b)) by divmod ]
  | |- context [?a =? ?b] =>
      first [ rewrite (proj2 (Z.eqb_eq a b)) by divmod
            | rewrite (proj2 (Z.eqb_neq a b)) by divmod ]
  end;
  cbn [andb orb negb].

Lemma Z_of_byte_of_Z (z : Z) : 0 <= z < 256 -> Z_of_byte (byte_of_Z z) = z.
Proof.
  intros Hz. unfold Z_of_byte, byte_of_Z.
  destruct (Byte.of_N (Z.to_N z)) as [b |] eqn:E.
  - apply Byte.to_of_N in E. rewrite E. lia.
  - apply Byte.of_N_None_iff in E. lia.
Qed.

Lemma bytes_of_Z_of_bytes (l : list Z) :
  Forall (fun z => 0 <= z < 256) l -> map Z_of_byte (map byte_of_Z l) = l.
Proof.
  induction 1 as [| z l Hz _ IH]; [reflexivity |].
  cbn [map]. rewrite Z_of_byte_of_Z by exact Hz. rewrite IH. reflexivity.
Qed.

Lemma utf8_bytes_range (c : Z) :
  scalar c -> Forall (fun z => 0 <= z < 256) (utf8_bytes c).
Proof.
  intros [Hc _]. unfold utf8_bytes.
  destruct (Z.ltb_spec c 0x80); [| destruct (Z.ltb_spec c 0x800);
    [| destruct (Z.ltb_spec c 0x10000)]];
    repeat constructor; divmod.
Qed.

(** The decoder reads back the bytes of a scalar value. *)
Lemma utf8_run_bytes (c : Z) (rest : list Z) :
  scalar c ->
  utf8_run utf8_idle (utf8_bytes c ++ rest) = c :: utf8_run utf8_idle rest.
Proof.
  intros [Hc Hs]. unfold utf8_bytes.
  destruct (Z.ltb_spec c 0x80); [| destruct (Z.ltb_spec c 0x800);
    [| destruct (Z.ltb_spec c 0x10000)]].
  - cbn [app utf8_run]. unfold utf8_step, utf8_lead. cbn [bytes_needed utf8_idle].
    settle. reflexivity.
  - cbn [app utf8_run]. unfold utf8_step, utf8_lead.
    cbn [bytes_needed bytes_seen code_point lower_boundary upper_boundary utf8_idle].
    settle.
    cbn [bytes_needed bytes_seen code_point lower_boundary upper_boundary utf8_idle].
    settle. cbn [app]. f_equal. divmod.
  - cbn [app utf8_run]. unfold utf8_step, utf8_lead.
    cbn [bytes_needed bytes_seen code_point lower_boundary upper_boundary utf8_idle].
    settle.
    cbn [bytes_needed bytes_seen code_point lower_boundary upper_boundary utf8_idle].
    destruct (Z.eqb_spec (0xE0 + c / 0x1000) 0xE0);
      destruct (Z.eqb_spec (0xE0 + c / 0x1000) 0xED);
      settle;
      cbn [bytes_needed bytes_seen code_point lower_boundary upper_boundary utf8_idle];
      settle; cbn [app]; f_equal; divmod.
  - cbn [app utf8_run]. unfold utf8_step, utf8_lead.
    cbn [bytes_needed bytes_seen code_point lower_boundary upper_boundary utf8_idle].
    settle.
    cbn [bytes_needed bytes_seen code_point lower_boundary upper_boundary utf8_idle].
    destruct (Z.eqb_spec (0xF0 + c / 0x40000) 0xF0);
      destruct (Z.eqb_spec (0xF0 + c / 0x40000) 0xF4);
      settle;
      cbn [bytes_needed bytes_seen code_point lower_boundary upper_boundary utf8_idle];
      settle;
      cbn [bytes_needed bytes_seen code_point lower_boundary upper_boundary utf8_idle];
      settle; cbn [app]; f_equal; divmod.
Qed.

Lemma utf8_decode_bytes (cps : list Z) :
  Forall scalar cps -> utf8_decode (flat_map utf8_bytes cps) = cps.
Proof.
  unfold utf8_decode. induction 1 as [| c cps Hc _ IH]; [reflexivity |].
  cbn [flat_map]. rewrite utf8_run_bytes by exact Hc. rewrite IH. reflexivity.
Qed.

(** Turns the boolean tests among the hypotheses into arithmetic. *)
Ltac tests_to_arith :=
  repeat match goal with
  | Ht : _ && _ = true |- _ => apply andb_true_iff in Ht; destruct Ht
  | Ht : _ && _ = false |- _ => apply andb_false_iff in Ht; destruct Ht
  | Ht : negb _ = true |- _ => apply negb_true_iff in Ht
  | Ht : (_ <=? _) = true |- _ => apply Z.leb_le in Ht
  | Ht : (_ <=? _) = false |- _ => apply Z.leb_gt in Ht
  | Ht : (_ =? _) = true |- _ => apply Z.eqb_eq in Ht
  | Ht : (_ =? _) = false |- _ => apply Z.eqb_neq in Ht
  end.

Lemma surrogate_pair (u v : Z) :
  is_lead u = true -> is_trail v = true ->
  let c := 0x10000 + (u - 0xD800) * 0x400 + (v - 0xDC00) in
  scalar c /\ code_units c = [u; v] /\ c <> 0xFEFF.
Proof.
  unfold is_lead, is_trail, scalar, code_units. intros Hu Hv. tests_to_arith. cbn zeta.
  split; [lia | split; [| lia]].
  settle. f_equal; [divmod | f_equal; divmod].
Qed.

Lemma not_surrogate (u : Z) :
  is_lead u = false -> is_trail u = false -> 0 <= u -> u <= 0xFFFF ->
  scalar u /\ code_units u = [u].
Proof.
  unfold is_lead, is_trail, scalar, code_units. intros Hl Ht H0 H1.
  tests_to_arith; (split; [lia | settle; reflexivity]).
Qed.

Lemma scalar_values_pair (u v : Z) (rest : jsstring) :
  is_lead u = true -> is_trail v = true ->
  scalar_values (u :: v :: rest) =
    (0x10000 + (u - 0xD800) * 0x400 + (v - 0xDC00)) :: scalar_values rest.
Proof. intros Hu Hv. cbn [scalar_values]. rewrite Hu, Hv. reflexivity. Qed.

Lemma scalar_values_single (u : Z) (rest : jsstring) :
  is_lead u = false -> is_trail u = false ->
  scalar_values (u :: rest) = u :: scalar_values rest.
Proof.
  intros Hu Ht. change (scalar_values (u :: rest)) with
    (if is_lead u then
       match rest with
       | v :: rest' =>
           if is_trail v
           then (0x10000 + (u - 0xD800) * 0x400 + (v - 0xDC00)) :: scalar_values rest'
           else 0xFFFD :: scalar_values rest
       | [] => [0xFFFD]
       end
     else if is_trail u then 0xFFFD :: scalar_values rest
     else u :: scalar_values rest).
  rewrite Hu, Ht. reflexivity.
Qed.

Lemma well_formed_pair (u v : Z) (rest : jsstring) :
  is_lead u = true ->
  well_formed (u :: v :: rest) = is_trail v && well_formed rest.
Proof. intros Hu. cbn [well_formed]. rewrite Hu. reflexivity. Qed.

Lemma well_formed_single (u : Z) (rest : jsstring) :
  is_lead u = false ->
  well_formed (u :: rest) =
    negb (is_trail u) && (0 <=? u) && (u <=? 0xFFFF) && well_formed rest.
Proof.
  intros Hu. change (well_formed (u :: rest)) with
    (if is_lead u then
       match rest with
       | v :: rest' => is_trail v && well_formed rest'
       | [] => false
       end
     else negb (is_trail u) && (0 <=? u) && (u <=? 0xFFFF) && well_formed rest).
  rewrite Hu. reflexivity.
Qed.

(** A well-formed string is the code units of its scalar values. *)
Lemma scalar_values_well_formed (s : jsstring) :
  well_formed s = true ->
  Forall scalar (scalar_values s) /\ flat_map code_units (scalar_values s) = s.
Proof.
  enough (Hboth :
    (well_formed s = true ->
     Forall scalar (scalar_values s) /\ flat_map code_units (scalar_values s) = s) /\
    (forall u, well_formed (u :: s) = true ->
     Forall scalar (scalar_values (u :: s)) /\
     flat_map code_units (scalar_values (u :: s)) = u :: s)) by apply Hboth.
  assert (Hsingle : forall u rest,
    is_lead u = false -> well_formed (u :: rest) = true ->
    (Forall scalar (scalar_values rest) /\ flat_map code_units (scalar_values rest) = rest) ->
    Forall scalar (scalar_values (u :: rest)) /\
    flat_map code_units (scalar_values (u :: rest)) = u :: rest).
  { intros u rest Hl Hw [Hall Hrt]. rewrite well_formed_single in Hw by exact Hl.
    destruct (is_trail u) eqn:Ht; [discriminate |]. cbn [negb andb] in Hw.
    apply andb_true_iff in Hw. destruct Hw as [Hw _].
    apply andb_true_iff in Hw. destruct Hw as [H0 H1].
    apply Z.leb_le in H0, H1.
    destruct (not_surrogate u Hl Ht H0 H1) as [Hs Hu].
    rewrite scalar_values_single by assumption. cbn [flat_map]. rewrite Hu, Hrt.
    split; [constructor; assumption | reflexivity]. }
  assert (Htail : forall u rest,
    is_lead u = false -> well_formed (u :: rest) = true -> well_formed rest = true).
  { intros u rest Hl Hw. rewrite well_formed_single in Hw by exact Hl.
    apply andb_true_iff in Hw. apply Hw. }
  induction s as [| v s [IH1 IH2]].
  - split; [intros _; split; [constructor | reflexivity] |].
    intros u Hw. destruct (is_lead u) eqn:Hl.
    + cbn [well_formed] in Hw. rewrite Hl in Hw. discriminate Hw.
    + apply Hsingle; [exact Hl | exact Hw | split; [constructor | reflexivity]].
  - split; [apply IH2 |].
    intros u Hw. destruct (is_lead u) eqn:Hl.
    + rewrite well_formed_pair in Hw by exact Hl.
      apply andb_true_iff in Hw. destruct Hw as [Ht Hw].
      destruct (surrogate_pair u v Hl Ht) as (Hs & Hu & _). cbn zeta in Hs, Hu.
      destruct (IH1 Hw) as [Hall Hrt].
      rewrite scalar_values_pair by assumption. cbn [flat_map]. rewrite Hu, Hrt.
      split; [constructor; assumption | reflexivity].
    + apply Hsingle; [exact Hl | exact Hw |]. apply IH2. exact (Htail u _ Hl Hw).
Qed.

(** Without U+FEFF at its head, a well-formed string has none at the
    head of its scalar values. *)
Lemma strip_bom_scalar_values (s : jsstring) :
  well_formed s = true -> has_bom s = false ->
  strip_bom (scalar_values s) = scalar_values s.
Proof.
  destruct s as [| u rest]; [reflexivity |].
  cbn [well_formed scalar_values has_bom]. intros Hw Hb.
  destruct (is_lead u) eqn:Hl.
  - destruct rest as [| v rest']; [discriminate |].
    apply andb_true_iff in Hw. destruct Hw as [Ht _]. rewrite Ht.
    destruct (surrogate_pair u v Hl Ht) as (_ & _ & Hne). cbn zeta in Hne.
    unfold strip_bom. apply Z.eqb_neq in Hne. rewrite Hne. reflexivity.
  - destruct (is_trail u); [discriminate |]. unfold strip_bom. rewrite Hb. reflexivity.
Qed.

Lemma utf8_bytes_all_range (cps : list Z) :
  Forall scalar cps -> Forall (fun z => 0 <= z < 256) (flat_map utf8_bytes cps).
Proof.
  induction 1 as [| c cps Hc _ IH]; [constructor |].
  cbn [flat_map]. apply Forall_app. split; [apply utf8_bytes_range, Hc | exact IH].
Qed.

(** Decoding what the encoder made of a well-formed string that does not
    start with U+FEFF gives the string back. *)
Lemma TextDecoder_TextEncoder (s : jsstring) :
  well_formed s = true -> has_bom s = false ->
  TextDecoder_decode (TextEncoder_encode s) = s.
Proof.
  intros Hw Hb. destruct (scalar_values_well_formed s Hw) as [Hall Hrt].
  unfold TextDecoder_decode, TextEncoder_encode.
  rewrite bytes_of_Z_of_bytes by (apply utf8_bytes_all_range, Hall).
  rewrite utf8_decode_bytes by exact Hall.
  rewrite strip_bom_scalar_values by assumption. exact Hrt.
Qed.

End Text_facts.

(** ** Properties *)

Section Properties.

Context {H : Host}.

(** Unfolds the monad under the methods. *)
Ltac step_monad :=
  unfold try_finally, try_catch, unwrapped, connected, emit, record, sleep, throw, modify,
    get, await, call, connecting, get_publicKey;
  cbn [bind ret Monad_M]; unfold M_bind, M_ret;
  cbn [outcome final trace _connecting _wallet _publicKey env
       set_connecting set_wallet set_publicKey set_env].

(** Reduces the projections and the field updates. *)
Ltac reduce_run :=
  cbn [outcome final trace _connecting _wallet _publicKey env app observed
       set_connecting set_wallet set_publicKey set_env negb orb fst snd].

(** Splits on the answers of the host met in the goal. *)
Ltac split_host :=
  repeat
    (reduce_run;
     match goal with
     | |- context [wallet_isConnected ?a ?b] => destruct (wallet_isConnected a b) eqn:?
     | |- context [window_coin98_sol ?a] => destruct (window_coin98_sol a) eqn:?
     | |- context [isCoin98 ?a ?b] => destruct (isCoin98 a b) eqn:?
     | |- context [wallet_connect ?a ?b] => destruct (wallet_connect a b) eqn:?
     | |- context [wallet_disconnect ?a ?b] => destruct (wallet_disconnect a b) eqn:?
     | |- context [wallet_request ?a ?b ?c ?d] => destruct (wallet_request a b c d) eqn:?
     | |- context [new_PublicKey ?a] => destruct (new_PublicKey a) eqn:?
     | |- context [bs58_decode ?a] => destruct (bs58_decode a) eqn:?
     | |- context [addSignature ?a ?b ?c ?d] => destruct (addSignature a b c d) eqn:?
     | |- context [(?x || _)%bool] => is_var x; destruct x
     | |- context [match ?x with _ => _ end] => is_var x; destruct x
     end);
  reduce_run.

(** Runs the goal again on the answers of the host known so far. *)
Ltac replay :=
  reduce_run;
  repeat (match goal with
          | Hq : ?call = _ |- context [?call] => rewrite Hq
          end; reduce_run).

(** Splits a membership in an explicit trace into its cases. *)
Ltac in_cases :=
  repeat match goal with
  | Hin : In _ _ |- _ => progress cbn [In app] in Hin
  | Hin : _ \/ _ |- _ => destruct Hin as [Hin | Hin]; [try discriminate Hin |]
  | Hf : False |- _ => destruct Hf
  end.

(** *** Traces *)

Lemma connections_app (a b : list Event) :
  connections (a ++ b) = connections a + connections b.
Proof. unfold connections. rewrite filter_app, length_app. reflexivity. Qed.

Lemma signing_order_app (a b : list Event) :
  signing_order (a ++ b) = signing_order a ++ signing_order b.
Proof. apply flat_map_app. Qed.

(** *** What each method does to the fields *)

Lemma same_fields_refl (s : Adapter) : same_fields s s.
Proof. repeat split. Qed.

Lemma same_fields_trans (s1 s2 s3 : Adapter) :
  same_fields s1 s2 -> same_fields s2 s3 -> same_fields s1 s3.
Proof. unfold same_fields. intros (-> & -> & ->) (-> & -> & ->). repeat split. Qed.

Lemma signTransaction_fields (transaction : Transaction) (s : Adapter) :
  same_fields s (final (signTransaction transaction s)).
Proof.
  destruct s as [c w p e]. unfold signTransaction, same_fields. step_monad.
  split_host; repeat split.
Qed.

Lemma signMessage_fields (message : list byte) (s : Adapter) :
  same_fields s (final (signMessage message s)).
Proof.
  destruct s as [c w p e]. unfold signMessage, same_fields. step_monad.
  split_host; repeat split.
Qed.

(** One turn of the loop of [signAllTransactions]. *)
Lemma signAllTransactions_loop_cons (transaction : Transaction)
    (rest signed : list Transaction) (s : Adapter) :
  signAllTransactions_loop (transaction :: rest) signed s =
    let r := signTransaction transaction s in
    match outcome r with
    | inl error => mkRun (inl error) (final r) (trace r)
    | inr signedTransaction =>
        let r' := signAllTransactions_loop rest (signed ++ [signedTransaction]) (final r) in
        mkRun (outcome r') (final r') (trace r ++ Sleep 500 :: trace r')
    end.
Proof.
  cbn [signAllTransactions_loop bind Monad_M]. unfold M_bind, sleep, record. cbn zeta.
  destruct (signTransaction transaction s) as [[x | a] s' t]; cbn; [reflexivity |].
  destruct (signAllTransactions_loop rest (signed ++ [a]) s') as [o s'' t']. reflexivity.
Qed.

Lemma signAllTransactions_loop_fields (transactions signed : list Transaction) (s : Adapter) :
  same_fields s (final (signAllTransactions_loop transactions signed s)).
Proof.
  revert signed s. induction transactions as [| t rest IH]; intros signed s.
  - apply same_fields_refl.
  - rewrite signAllTransactions_loop_cons. cbn zeta.
    pose proof (signTransaction_fields t s) as Ht.
    destruct (outcome (signTransaction t s)); cbn [final]; [exact Ht |].
    eapply same_fields_trans; [exact Ht | apply IH].
Qed.

(** The [finally] block of [connect()]. *)
Lemma connect_finally (s : Adapter) : _connecting (final (connect s)) = false.
Proof.
  unfold connect, try_finally. destruct (try_catch _ _ s). reflexivity.
Qed.

(** The ways [connect()] can go: a no-op, a new connection, a failure. *)
Lemma connect_cases (s : Adapter) :
  let r := connect s in
  _connecting (final r) = false /\
  ((outcome r = inr tt /\ (_wallet s <> None \/ _connecting s = true) /\
    _wallet (final r) = _wallet s /\ _publicKey (final r) = _publicKey s) \/
   (outcome r = inr tt /\ _wallet (final r) <> None /\ _publicKey (final r) <> None) \/
   ((exists error, outcome r = inl error) /\
    _wallet (final r) = _wallet s /\ _publicKey (final r) = _publicKey s)).
Proof.
  intros r. split; [apply connect_finally |]. subst r.
  destruct s as [c w p e]. unfold connect, connect_body. step_monad.
  split_host;
    solve [ left; repeat split; solve [ left; discriminate | right; reflexivity ]
          | right; left; repeat split; discriminate
          | right; right; split; [eexists; reflexivity | split; reflexivity] ].
Qed.

(** [disconnect()] leaves no handle, and no public key where there was a
    handle; otherwise it leaves the public key alone. *)
Lemma disconnect_cases (s : Adapter) :
  let r := disconnect s in
  _connecting (final r) = _connecting s /\
  _wallet (final r) = None /\
  (_wallet s = None -> _publicKey (final r) = _publicKey s) /\
  (_wallet s <> None -> _publicKey (final r) = None).
Proof.
  destruct s as [c w p e]. unfold disconnect. step_monad.
  split_host; repeat split; congruence.
Qed.

(** In every state an adapter goes through, no call is in flight, handle
    and public key are null together, and there is a handle exactly when
    a [connect()] has returned since the last [disconnect()]. *)
Lemma reachable_invariant (h : list (Method * bool)) (s : Adapter) :
  reachable h s ->
  _connecting s = false /\ coherent s /\
  (_wallet s <> None <-> connected_since_disconnect h = true).
Proof.
  unfold coherent. induction 1 as [w | h s m Hr IH | h s w Hr IH].
  - cbn. repeat split; congruence.
  - destruct IH as (Hc & Hcoh & Hh). destruct m; cbn [invoke fst snd].
    + pose proof (connect_cases s) as (Hf & Hcases). cbn zeta in Hf, Hcases.
      unfold returned. cbn [connected_since_disconnect].
      destruct Hcases as [(Ho & Hw & Hw' & Hp') | [(Ho & Hw' & Hp') | ((err & Ho) & Hw' & Hp')]];
        rewrite Ho; (split; [exact Hf |]).
      * rewrite Hw', Hp'. split; [exact Hcoh |].
        destruct Hw as [Hw | Hw]; [| congruence]. split; auto.
      * repeat split; auto; try congruence.
      * rewrite Hw', Hp'. split; [exact Hcoh | exact Hh].
    + pose proof (disconnect_cases s) as (Hf & Hw' & Hp1 & Hp2). cbn zeta in *.
      cbn [connected_since_disconnect]. rewrite Hf, Hw'. split; [exact Hc |].
      assert (Hp : _publicKey (final (disconnect s)) = None).
      { destruct (_wallet s) eqn:Ew; [apply Hp2; congruence |].
        rewrite Hp1 by reflexivity. apply Hcoh. reflexivity. }
      rewrite Hp. repeat split; congruence.
    + pose proof (signTransaction_fields transaction s) as (-> & -> & ->).
      cbn [connected_since_disconnect]. auto.
    + pose proof (signAllTransactions_loop_fields transactions [] s) as (Hx & Hy & Hz).
      unfold signAllTransactions. rewrite Hx, Hy, Hz.
      cbn [connected_since_disconnect]. auto.
    + pose proof (signMessage_fields message s) as (-> & -> & ->).
      cbn [connected_since_disconnect]. auto.
  - exact IH.
Qed.

(** *** The connecting flag *)

(** C9. Whatever the state [connect()] is called in and however it
    exits, the connecting flag is false afterwards.  The exits are a
    return, a raise of one of WalletNotFound, WalletNotInstalled,
    WalletAccountError and WalletPublicKeyError, and the raise, as it
    is, of what the stored wallet's [isConnected()] threw. *)
Theorem connect_clears_connecting (s : Adapter) :
  connecting (final (connect s)) = false /\
  (outcome (connect s) = inr tt \/
   outcome (connect s) = inl WalletNotFoundError \/
   outcome (connect s) = inl WalletNotInstalledError \/
   (exists e, outcome (connect s) = inl (WalletAccountError (error_message e) e)) \/
   (exists e, outcome (connect s) = inl (WalletPublicKeyError (error_message e) e)) \/
   (exists wallet e w,
      _wallet s = Some wallet /\
      wallet_isConnected wallet (env s) = (inl e, w) /\
      outcome (connect s) = inl (Unwrapped e))).
Proof.
  split; [apply connect_finally |].
  destruct s as [c w p e]. unfold connect, connect_body. step_monad.
  split_host; eauto 12.
Qed.

(** *** Signing without a handle *)

(** C6. With no wallet handle stored, [signTransaction] raises
    WalletNotConnectedError: the only thing it does is emit that error,
    no call reaches the host, and the state, world included, is left as
    it was. *)
Theorem signTransaction_not_connected (s : Adapter) (transaction : Transaction) :
  _wallet s = None ->
  signTransaction transaction s =
    mkRun (inl WalletNotConnectedError) s [Emit_error WalletNotConnectedError].
Proof.
  intros Hw. unfold signTransaction. step_monad. rewrite Hw. reflexivity.
Qed.

(** *** Connecting twice *)

(** C3 (amended). When [connect()] has returned and, the world having
    moved in any way since, the stored wallet answers [isConnected()]
    with true as [connect()] is called again, the second call is a no-op:
    it returns, it only consults [isConnected()], emits nothing, leaves
    handle and public key as they are, and [wallet.connect()] is invoked
    at most once across the two calls. *)
Theorem connect_twice (s : Adapter) (w : world) :
  let r1 := connect s in
  let s1 := set_env w (final r1) in
  let r2 := connect s1 in
  outcome r1 = inr tt ->
  outcome (connected s1) = inr true ->
  outcome r2 = inr tt /\
  (exists wallet, _wallet s1 = Some wallet /\ trace r2 = [Call (isConnected_ wallet)]) /\
  connections (trace r2) = 0 /\
  _wallet (final r2) = _wallet s1 /\
  _publicKey (final r2) = _publicKey s1 /\
  connections (trace r1 ++ trace r2) <= 1.
Proof.
  intros r1 s1 r2 _ Hc.
  assert (Hone : connections (trace r1) <= 1).
  { subst r1. destruct s as [c0 w0 p0 e0]. unfold connect, connect_body. step_monad.
    split_host; cbn; lia. }
  assert (H2 : outcome r2 = inr tt /\
               (exists wallet, _wallet s1 = Some wallet /\
                               trace r2 = [Call (isConnected_ wallet)]) /\
               _wallet (final r2) = _wallet s1 /\ _publicKey (final r2) = _publicKey s1).
  { subst r2. revert Hc. generalize s1. intros [c0 w0 p0 e0].
    unfold connect, connect_body. step_monad.
    destruct w0 as [wallet |]; [| discriminate].
    destruct (wallet_isConnected wallet e0) as [b w1]. cbn. intros [= ->]. cbn. eauto 8. }
  destruct H2 as (Ho & (wallet & Hw & Ht) & Hwal & Hpk).
  assert (H0 : connections (trace r2) = 0) by (rewrite Ht; reflexivity).
  repeat split; eauto.
  rewrite connections_app, H0. lia.
Qed.

(** *** The public key and the handle *)

(** C4. In every state an adapter goes through, [publicKey] is non-null
    exactly when the handle is non-null and a [connect()] has returned
    since the last [disconnect()]; every public method preserves that
    [_publicKey] and [_wallet] are null together; and a method that
    changes either field is a [connect()] that returns, which sets both,
    or a [disconnect()], which clears both (a [connect()] that fails
    leaves them as they were). *)
Theorem publicKey_iff_wallet :
  (forall h s, reachable h s ->
     coherent s /\
     (get_publicKey s <> None <->
      _wallet s <> None /\ connected_since_disconnect h = true)) /\
  (forall m s, coherent s -> coherent (fst (invoke m s))) /\
  (forall m s,
     let s' := fst (invoke m s) in
     _wallet s' <> _wallet s \/ _publicKey s' <> _publicKey s ->
     (m = m_connect /\ snd (invoke m s) = true /\
      _wallet s' <> None /\ _publicKey s' <> None) \/
     (m = m_disconnect /\ _wallet s' = None /\ _publicKey s' = None)).
Proof.
  split; [| split].
  - intros h s Hr. destruct (reachable_invariant Hr) as (_ & Hcoh & Hh).
    split; [exact Hcoh |]. unfold get_publicKey, coherent in *.
    rewrite <- Hh. split.
    + intros Hp. split; intros Hw; apply Hp, Hcoh, Hw.
    + intros [Hw _] Hp. apply Hw, Hcoh, Hp.
  - intros m s Hcoh. unfold coherent in *. destruct m; cbn [invoke fst].
    + pose proof (connect_cases s) as (_ & Hcases). cbn zeta in Hcases.
      destruct Hcases as [(_ & _ & -> & ->) | [(_ & Hw & Hp) | (_ & -> & ->)]];
        try exact Hcoh.
      split; intros E; [elim (Hp E) | elim (Hw E)].
    + pose proof (disconnect_cases s) as (_ & Hw & Hp1 & Hp2). cbn zeta in *.
      rewrite Hw. split; [reflexivity | intros _].
      destruct (_wallet s) eqn:Ew; [apply Hp2; congruence |].
      rewrite Hp1 by reflexivity. apply Hcoh. reflexivity.
    + pose proof (signTransaction_fields transaction s) as (_ & -> & ->). exact Hcoh.
    + pose proof (signAllTransactions_loop_fields transactions [] s) as (_ & Hy & Hz).
      unfold signAllTransactions. rewrite Hy, Hz. exact Hcoh.
    + pose proof (signMessage_fields message s) as (_ & -> & ->). exact Hcoh.
  - intros m s s' Hch. subst s'. destruct m; cbn [invoke fst snd] in *.
    + left. pose proof (connect_cases s) as (_ & Hcases). cbn zeta in Hcases.
      destruct Hcases as [(_ & _ & Hw & Hp) | [(Ho & Hw & Hp) | (_ & Hw & Hp)]].
      * destruct Hch as [Hch | Hch]; congruence.
      * unfold returned. rewrite Ho. auto.
      * destruct Hch as [Hch | Hch]; congruence.
    + right. pose proof (disconnect_cases s) as (_ & Hw & Hp1 & Hp2). cbn zeta in *.
      destruct (_wallet s) eqn:Ew.
      * repeat split; auto. apply Hp2. congruence.
      * destruct Hch as [Hch | Hch]; [congruence |]. elim Hch. auto.
    + pose proof (signTransaction_fields transaction s) as (_ & Hw & Hp).
      destruct Hch as [Hch | Hch]; congruence.
    + pose proof (signAllTransactions_loop_fields transactions [] s) as (_ & Hw & Hp).
      unfold signAllTransactions in Hch. destruct Hch as [Hch | Hch]; congruence.
    + pose proof (signMessage_fields message s) as (_ & Hw & Hp).
      destruct Hch as [Hch | Hch]; congruence.
Qed.

(** *** Disconnecting *)

(** C2 (amended). In every state an adapter goes through, the never
    connected one included, and whatever the wallet's own disconnect
    does, [disconnect()] leaves [publicKey] (and the handle) null; and
    whenever it returns, which it does when no handle is stored or the
    wallet's own disconnect resolves, the last thing it did was to emit
    'disconnect'. *)
Theorem disconnect_clears (h : list (Method * bool)) (s : Adapter) :
  reachable h s ->
  let r := disconnect s in
  get_publicKey (final r) = None /\
  _wallet (final r) = None /\
  (outcome r = inr tt -> exists before, trace r = before ++ [Emit_disconnect]) /\
  (_wallet s = None -> outcome r = inr tt) /\
  (forall wallet w, _wallet s = Some wallet ->
     wallet_disconnect wallet (env s) = (inr tt, w) -> outcome r = inr tt).
Proof.
  intros Hr r. destruct (reachable_invariant Hr) as (_ & Hcoh & _).
  unfold coherent in Hcoh. subst r. revert Hcoh.
  destruct s as [c w p e]. unfold disconnect. step_monad. intros Hcoh.
  destruct w as [wallet |]; reduce_run.
  - destruct (wallet_disconnect wallet e) as [[err | []] w1] eqn:Ed; reduce_run.
    + split; [reflexivity | split; [reflexivity | split; [| split]]].
      * intros [=].
      * intros [=].
      * intros wallet' w2 [= <-] E. rewrite Ed in E. discriminate E.
    + split; [reflexivity | split; [reflexivity | split; [| split]]].
      * intros _. exists [Call (disconnect_ wallet)]. reflexivity.
      * reflexivity.
      * reflexivity.
  - split; [apply Hcoh; reflexivity | split; [reflexivity | split; [| split]]].
    + intros _. exists []. reflexivity.
    + reflexivity.
    + reflexivity.
Qed.

(** *** An account that is not a public key *)

(** C5 (amended). When [connect()] gets as far as asking the wallet for
    its accounts (it is neither connected nor connecting, and the
    extension is there and genuine) and the first account returned is
    not a valid public key, [connect()] raises WalletPublicKeyError
    around the parse failure, having emitted it, and leaves handle and
    [publicKey] as they were: [publicKey] is null afterwards if it was
    null before the call. *)
Theorem connect_invalid_account (s : Adapter) (wallet : Coin98Wallet)
    (accounts : list string) (w : world) (e : thrown) :
  let r0 := connected s in
  outcome r0 = inr false ->
  connecting s = false ->
  window_coin98_sol (env (final r0)) = Some wallet ->
  isCoin98 wallet (env (final r0)) = true ->
  wallet_connect wallet (env (final r0)) = (inr accounts, w) ->
  new_PublicKey (hd_error accounts) = inl e ->
  let r := connect s in
  outcome r = inl (WalletPublicKeyError (error_message e) e) /\
  (exists before,
     trace r = before ++ [Emit_error (WalletPublicKeyError (error_message e) e)]) /\
  get_publicKey (final r) = get_publicKey s /\
  _wallet (final r) = _wallet s /\
  (get_publicKey s = None -> get_publicKey (final r) = None).
Proof.
  destruct s as [c w0 p e0]. unfold connect, connect_body. step_monad.
  destruct w0 as [wallet0 |]; cbn.
  - destruct (wallet_isConnected wallet0 e0) as [b w1] eqn:Ei. cbn.
    intros [= ->] -> Hs Hg Hc Hp. cbn. rewrite Hs. cbn. rewrite Hg. cbn.
    rewrite Hc. cbn. rewrite Hp. cbn.
    repeat split; auto.
    eexists [_; _; _; _]. reflexivity.
  - intros _ -> Hs Hg Hc Hp. cbn. rewrite Hs. cbn. rewrite Hg. cbn.
    rewrite Hc. cbn. rewrite Hp. cbn.
    repeat split; auto.
    eexists [_; _; _]. reflexivity.
Qed.

(** *** Failures *)

Lemma signTransaction_raise_emitted (transaction : Transaction) (s : Adapter) :
  raise_emitted (signTransaction transaction s).
Proof.
  destruct s as [c w p e]. unfold signTransaction, raise_emitted. step_monad.
  split_host; intros error [= <-]; rewrite ?app_nil_r;
    match goal with |- exists b, ?l = _ => exists (removelast l); reflexivity end.
Qed.

Lemma signTransaction_failures_wrapped (transaction : Transaction) (s : Adapter) :
  failures_wrapped sign_kind (signTransaction transaction s).
Proof.
  destruct s as [c w p e]. unfold signTransaction, failures_wrapped, sign_kind. step_monad.
  split_host; intros hc he Hin; in_cases; injection Hin as <- <-; reflexivity.
Qed.

(** A [signTransaction] that returns met no failure, returns the
    transaction it was given, and made exactly one signing request, for
    that transaction; one that raises made that request or none. *)
Lemma signTransaction_order (transaction : Transaction) (s : Adapter) :
  let r := signTransaction transaction s in
  (outcome r = inr transaction /\ signing_order (trace r) = [transaction] /\
   (forall c e, ~ In (Failed c e) (trace r))) \/
  ((exists error, outcome r = inl error) /\
   (signing_order (trace r) = [] \/ signing_order (trace r) = [transaction])).
Proof.
  destruct s as [c w p e]. unfold signTransaction. step_monad.
  split_host;
    solve [ left; repeat split; intros hc he Hin; in_cases
          | right; split; [eexists; reflexivity | auto] ].
Qed.

Lemma signAllTransactions_loop_failures (transactions signed : list Transaction)
    (s : Adapter) :
  raise_emitted (signAllTransactions_loop transactions signed s) /\
  failures_wrapped sign_kind (signAllTransactions_loop transactions signed s).
Proof.
  revert signed s. induction transactions as [| t rest IH]; intros signed s.
  - split; [intros error [=] | intros c e []].
  - rewrite signAllTransactions_loop_cons. cbn zeta.
    pose proof (signTransaction_raise_emitted t s) as He.
    pose proof (signTransaction_failures_wrapped t s) as Hf.
    destruct (signTransaction_order t s) as [(Ho & _ & Hno) | ((err & Ho) & _)];
      rewrite Ho.
    + destruct (IH (signed ++ [t]) (final (signTransaction t s))) as (IHe & IHf).
      split.
      * intros error Hout. cbn [outcome trace] in *.
        destruct (IHe error Hout) as [before Hb]. rewrite Hb.
        exists (trace (signTransaction t s) ++ Sleep 500 :: before).
        rewrite <- app_assoc. reflexivity.
      * intros c e Hin. cbn [outcome trace] in *.
        apply in_app_or in Hin. destruct Hin as [Hin | [Hin | Hin]].
        -- elim (Hno c e Hin).
        -- discriminate Hin.
        -- apply IHf, Hin.
    + split.
      * intros error [= <-]. apply He, Ho.
      * intros c e Hin. cbn [outcome trace] in *.
        specialize (Hf c e Hin). rewrite Ho in Hf. injection Hf as ->. reflexivity.
Qed.

(** C1 (amended). In [connect], [signTransaction], [signAllTransactions]
    and [signMessage], whatever is raised has been emitted as an 'error'
    event, the last act before raising; and every failure of a call to
    the host ends the method by raising it: wrapped as WalletAccountError
    for [wallet.connect()], as WalletPublicKeyError for the account
    parse, as WalletSignTransactionError for everything in the signing
    methods, and as it is, not wrapped, for the [isConnected()] that
    [connect] consults. *)
Theorem failures_wrapped_and_emitted (s : Adapter) :
  (raise_emitted (connect s) /\ failures_wrapped connect_kind (connect s)) /\
  (forall transaction,
     raise_emitted (signTransaction transaction s) /\
     failures_wrapped sign_kind (signTransaction transaction s)) /\
  (forall transactions,
     raise_emitted (signAllTransactions transactions s) /\
     failures_wrapped sign_kind (signAllTransactions transactions s)) /\
  (forall message,
     raise_emitted (signMessage message s) /\
     failures_wrapped sign_kind (signMessage message s)).
Proof.
  repeat split.
  - destruct s as [c w p e]. unfold connect, connect_body, raise_emitted. step_monad.
    split_host; intros error [= <-]; rewrite ?app_nil_r;
      match goal with |- exists b, ?l = _ => exists (removelast l); reflexivity end.
  - destruct s as [c w p e].
    unfold connect, connect_body, failures_wrapped, connect_kind. step_monad.
    split_host; intros hc he Hin; in_cases; injection Hin as <- <-; reflexivity.
  - apply signTransaction_raise_emitted.
  - apply signTransaction_failures_wrapped.
  - apply signAllTransactions_loop_failures.
  - apply signAllTransactions_loop_failures.
  - destruct s as [c w p e]. unfold signMessage, raise_emitted. step_monad.
    split_host; intros error [= <-]; rewrite ?app_nil_r;
      match goal with |- exists b, ?l = _ => exists (removelast l); reflexivity end.
  - destruct s as [c w p e]. unfold signMessage, failures_wrapped, sign_kind. step_monad.
    split_host; intros hc he Hin; in_cases; injection Hin as <- <-; reflexivity.
Qed.

(** *** Signing a message *)

(** C8 (amended). Without a handle, [signMessage] raises
    WalletNotConnectedError and calls nothing.  With one, it decodes the
    bytes as UTF-8 text and sends that text, alone, through
    [wallet.request]; when the wallet answers, it returns the UTF-8
    encoding of the answer's signature string and nothing else, and
    decoding the returned bytes gives back that string whenever the
    string is well formed (its surrogates come in pairs) and does not
    start with U+FEFF; when the wallet fails, it raises the failure
    wrapped as WalletSignTransactionError. *)
Theorem signMessage_roundtrip (s : Adapter) (message : list byte) :
  (_wallet s = None ->
   signMessage message s =
     mkRun (inl WalletNotConnectedError) s [Emit_error WalletNotConnectedError]) /\
  (forall wallet, _wallet s = Some wallet ->
     let text := TextDecoder_decode message in
     let request := request_ wallet "sol_sign" [inr text] in
     (forall response w,
        wallet_request wallet "sol_sign" [inr text] (env s) = (inr response, w) ->
        signMessage message s =
          mkRun (inr (TextEncoder_encode (sig response))) (set_env w s) [Call request] /\
        (well_formed (sig response) = true ->
         has_bom (sig response) = false ->
         forall bytes,
           outcome (signMessage message s) = inr bytes ->
           TextDecoder_decode bytes = sig response)) /\
     (forall e w,
        wallet_request wallet "sol_sign" [inr text] (env s) = (inl e, w) ->
        let error := WalletSignTransactionError (error_message e) e in
        signMessage message s =
          mkRun (inl error) (set_env w s) [Call request; Failed request e; Emit_error error])).
Proof.
  split.
  - intros Hw. unfold signMessage. step_monad. rewrite Hw. reflexivity.
  - intros wallet Hw text request. subst text request.
    unfold signMessage. step_monad. rewrite Hw. cbn. split.
    + intros response w Hreq. rewrite Hreq. cbn. split; [reflexivity |].
      intros Hwf Hbom bytes [= <-]. apply TextDecoder_TextEncoder; assumption.
    + intros e w Hreq. rewrite Hreq. cbn. reflexivity.
Qed.

(** *** Signing a list of transactions *)

Lemma signAllTransactions_loop_sequential (transactions signed : list Transaction)
    (s : Adapter) :
  let r := signAllTransactions_loop transactions signed s in
  let runs := sign_each transactions s in
  trace r = flat_map then_sleep runs /\
  (exists rest, transactions = signing_order (trace r) ++ rest) /\
  (forall result, outcome r = inr result ->
     result = signed ++ transactions /\
     signing_order (trace r) = transactions /\
     length runs = length transactions /\
     Forall (fun run => returned run = true) runs).
Proof.
  revert signed s. induction transactions as [| t rest IH]; intros signed s; cbn zeta.
  - cbn. split; [reflexivity | split; [exists []; reflexivity |]].
    intros result [= <-]. rewrite app_nil_r. repeat split. constructor.
  - rewrite signAllTransactions_loop_cons. cbn [sign_each flat_map]. cbn zeta.
    unfold then_sleep at 1.
    destruct (signTransaction_order t s) as [(Ho & Hord & _) | ((err & Ho) & Hord)].
    + assert (Hret : returned (signTransaction t s) = true)
        by (unfold returned; rewrite Ho; reflexivity).
      rewrite Hret, Ho. cbn [outcome trace].
      destruct (IH (signed ++ [t]) (final (signTransaction t s))) as (IHt & (tl & IHp) & IHr).
      cbn zeta in *. split; [| split].
      * rewrite IHt, <- app_assoc. reflexivity.
      * exists tl. rewrite signing_order_app, Hord. cbn [signing_order flat_map request_of app].
        fold (signing_order (trace (signAllTransactions_loop rest (signed ++ [t])
                                      (final (signTransaction t s))))).
        rewrite <- IHp. reflexivity.
      * intros result Hres. destruct (IHr result Hres) as (-> & Hs & Hl & Hall).
        rewrite signing_order_app, Hord. cbn [signing_order flat_map request_of app].
        fold (signing_order (trace (signAllTransactions_loop rest (signed ++ [t])
                                      (final (signTransaction t s))))).
        rewrite Hs, <- app_assoc. cbn [length]. rewrite Hl.
        repeat split. constructor; [exact Hret | exact Hall].
    + assert (Hret : returned (signTransaction t s) = false)
        by (unfold returned; rewrite Ho; reflexivity).
      rewrite Hret, Ho. cbn [outcome trace flat_map]. rewrite !app_nil_r.
      split; [reflexivity | split].
      * destruct Hord as [-> | ->]; [exists (t :: rest) | exists rest]; reflexivity.
      * intros result [=].
Qed.

(** C7. [signAllTransactions] is the runs of [signTransaction] over the
    list, in input order, one after the other: each run is whole, starts
    in the state the run before it left, and is followed, when it
    returned, by a sleep of 500 ms before the next begins.  The signing
    requests reach the wallet in input order (all of them unless a run
    raises and stops the loop), and a call that returns returns the
    transactions it was given, in the same order. *)
Theorem signAllTransactions_sequential (transactions : list Transaction) (s : Adapter) :
  let r := signAllTransactions transactions s in
  let runs := sign_each transactions s in
  trace r = flat_map then_sleep runs /\
  (exists rest, transactions = signing_order (trace r) ++ rest) /\
  (forall result, outcome r = inr result ->
     result = transactions /\
     signing_order (trace r) = transactions /\
     length runs = length transactions /\
     Forall (fun run => returned run = true) runs).
Proof.
  exact (signAllTransactions_loop_sequential transactions [] s).
Qed.

(** ** Further properties of the methods *)

Lemma emitted_app (a b : list Event) : emitted (a ++ b) = emitted a ++ emitted b.
Proof. apply filter_app. Qed.

Lemma sleeps_app (a b : list Event) : sleeps (a ++ b) = sleeps a ++ sleeps b.
Proof. apply flat_map_app. Qed.

(** *** What the listeners receive from the signing methods *)

(** One run of [signTransaction]: the listeners receive the error it
    raises and nothing else, no timer is awaited, and any request goes
    to the stored handle, under 'sol_sign', with the transaction alone. *)
Lemma signTransaction_observed (transaction : Transaction) (s : Adapter) :
  let r := signTransaction transaction s in
  emitted (trace r) =
    match outcome r with inl error => [Emit_error error] | inr _ => [] end /\
  sleeps (trace r) = [] /\
  (forall wallet method params,
     In (Call (request_ wallet method params)) (trace r) ->
     _wallet s = Some wallet /\ method = "sol_sign" /\ params = [inl transaction]).
Proof.
  destruct s as [c w p e]. unfold signTransaction. step_monad.
  split_host; (split; [reflexivity | split; [reflexivity |]]);
    intros wallet method params Hin; in_cases;
    injection Hin as <- <- <-; repeat split.
Qed.

Lemma signAllTransactions_loop_emitted (transactions signed : list Transaction)
    (s : Adapter) :
  let r := signAllTransactions_loop transactions signed s in
  emitted (trace r) =
    match outcome r with inl error => [Emit_error error] | inr _ => [] end.
Proof.
  revert signed s. induction transactions as [| t rest IH]; intros signed s; cbn zeta.
  - reflexivity.
  - rewrite signAllTransactions_loop_cons. cbn zeta.
    destruct (signTransaction_observed t s) as (He & _ & _). cbn zeta in He.
    destruct (outcome (signTransaction t s)) as [error | t']; cbn [outcome trace].
    + exact He.
    + rewrite emitted_app, He. cbn [app]. apply IH.
Qed.

(** X1. The listeners of the adapter receive from a signing method
    exactly one event, the error it raises, when it raises, and no event
    at all when it returns; this holds for [signTransaction],
    [signAllTransactions] and [signMessage]. *)
Theorem signing_emits_one_error (s : Adapter) :
  (forall transaction,
     let r := signTransaction transaction s in
     emitted (trace r) =
       match outcome r with inl error => [Emit_error error] | inr _ => [] end) /\
  (forall transactions,
     let r := signAllTransactions transactions s in
     emitted (trace r) =
       match outcome r with inl error => [Emit_error error] | inr _ => [] end) /\
  (forall message,
     let r := signMessage message s in
     emitted (trace r) =
       match outcome r with inl error => [Emit_error error] | inr _ => [] end).
Proof.
  split; [| split].
  - intros transaction. apply signTransaction_observed.
  - intros transactions. apply signAllTransactions_loop_emitted.
  - intros message. destruct s as [c w p e]. unfold signMessage. step_monad.
    split_host; reflexivity.
Qed.

(** *** Where the requests go *)

Lemma signAllTransactions_loop_requests (transactions signed : list Transaction)
    (s : Adapter) (wallet : Coin98Wallet) (method : string)
    (params : list (Transaction + jsstring)) :
  In (Call (request_ wallet method params))
    (trace (signAllTransactions_loop transactions signed s)) ->
  _wallet s = Some wallet /\ method = "sol_sign" /\
  exists transaction, In transaction transactions /\ params = [inl transaction].
Proof.
  revert signed s. induction transactions as [| t rest IH]; intros signed s.
  - intros [].
  - rewrite signAllTransactions_loop_cons. cbn zeta.
    destruct (signTransaction_observed t s) as (_ & _ & Hreq). cbn zeta in Hreq.
    pose proof (signTransaction_fields t s) as (_ & Hw & _).
    destruct (outcome (signTransaction t s)) as [error | t']; cbn [trace]; intros Hin.
    + destruct (Hreq _ _ _ Hin) as (Hs & Hm & Hp).
      repeat split; try assumption. exists t. split; [left; reflexivity | exact Hp].
    + apply in_app_or in Hin. destruct Hin as [Hin | [Hin | Hin]].
      * destruct (Hreq _ _ _ Hin) as (Hs & Hm & Hp).
        repeat split; try assumption. exists t. split; [left; reflexivity | exact Hp].
      * discriminate Hin.
      * destruct (IH _ _ Hin) as (Hs & Hm & t0 & Ht0 & Hp).
        rewrite Hw in Hs. repeat split; try assumption.
        exists t0. split; [right; exact Ht0 | exact Hp].
Qed.

(** X2. Every [wallet.request] the adapter makes goes to the handle it
    stored when the method was called, under the method name 'sol_sign',
    with a single parameter: the transaction given ([signTransaction]),
    one of the transactions given ([signAllTransactions]), or the decoded
    message ([signMessage]).  [connect] and [disconnect] make no request. *)
Theorem requests_go_to_the_handle (s : Adapter) (wallet : Coin98Wallet)
    (method : string) (params : list (Transaction + jsstring)) :
  (forall transaction,
     In (Call (request_ wallet method params)) (trace (signTransaction transaction s)) ->
     _wallet s = Some wallet /\ method = "sol_sign" /\ params = [inl transaction]) /\
  (forall transactions,
     In (Call (request_ wallet method params)) (trace (signAllTransactions transactions s)) ->
     _wallet s = Some wallet /\ method = "sol_sign" /\
     exists transaction, In transaction transactions /\ params = [inl transaction]) /\
  (forall message,
     In (Call (request_ wallet method params)) (trace (signMessage message s)) ->
     _wallet s = Some wallet /\ method = "sol_sign" /\
     params = [inr (TextDecoder_decode message)]) /\
  ~ In (Call (request_ wallet method params)) (trace (connect s)) /\
  ~ In (Call (request_ wallet method params)) (trace (disconnect s)).
Proof.
  split; [| split; [| split; [| split]]].
  - intros transaction. apply signTransaction_observed.
  - intros transactions. apply signAllTransactions_loop_requests.
  - intros message. destruct s as [c w p e]. unfold signMessage. step_monad.
    split_host; intros Hin; in_cases; injection Hin as <- <- <-; repeat split.
  - destruct s as [c w p e]. unfold connect, connect_body. step_monad.
    split_host; intros Hin; in_cases.
  - destruct s as [c w p e]. unfold disconnect. step_monad.
    split_host; intros Hin; in_cases.
Qed.

(** *** What gets attached to a transaction *)

(** X3. [signTransaction] calls [addSignature] only on the transaction
    it was given, only after the stored wallet has answered the request,
    and only with the answer's [publicKey] parsed as a public key and the
    answer's [signature] decoded from base58: when the wallet refuses, or
    its answer does not parse, nothing is attached. *)
Theorem signTransaction_attaches (transaction target : Transaction) (s : Adapter)
    (key : PublicKey) (bytes : list byte) :
  In (Call (addSignature_ target key bytes)) (trace (signTransaction transaction s)) ->
  target = transaction /\
  exists wallet response w,
    _wallet s = Some wallet /\
    wallet_request wallet "sol_sign" [inl transaction] (env s) = (inr response, w) /\
    new_PublicKey (Some (publicKey response)) = inr key /\
    bs58_decode (signature response) = inr bytes.
Proof.
  destruct s as [c w p e]. unfold signTransaction. step_monad.
  split_host; intros Hin; in_cases; injection Hin as <- <- <-;
    (split; [reflexivity |]); do 3 eexists; repeat split; eassumption.
Qed.

(** *** Signing a list: the edges *)

(** X4. On an adapter with no handle, [signAllTransactions] of an empty
    list returns the empty list and does nothing at all, where any other
    list raises WalletNotConnectedError on its first transaction, with
    that one error emitted, no call to the host and no sleep; in both
    cases the state is left as it was. *)
Theorem signAllTransactions_not_connected (transactions : list Transaction)
    (s : Adapter) :
  _wallet s = None ->
  signAllTransactions transactions s =
    match transactions with
    | [] => mkRun (inr []) s []
    | _ :: _ => mkRun (inl WalletNotConnectedError) s [Emit_error WalletNotConnectedError]
    end.
Proof.
  intros Hw. destruct transactions as [| t rest]; [reflexivity |].
  unfold signAllTransactions. rewrite signAllTransactions_loop_cons. cbn zeta.
  assert (Ht : signTransaction t s =
               mkRun (inl WalletNotConnectedError) s [Emit_error WalletNotConnectedError]).
  { unfold signTransaction. step_monad. rewrite Hw. reflexivity. }
  rewrite Ht. reflexivity.
Qed.

Lemma last_cons_default {A} (a d : A) (l : list A) : last (a :: l) d = last l a.
Proof.
  revert a d. induction l as [| b l IH]; intros a d; [reflexivity |].
  change (last (a :: b :: l) d) with (last (b :: l) d).
  rewrite (IH b d), (IH b a). reflexivity.
Qed.

Lemma signAllTransactions_loop_stops (transactions signed : list Transaction)
    (s : Adapter) :
  let r := signAllTransactions_loop transactions signed s in
  let runs := sign_each transactions s in
  final r = last (map (fun run => final run) runs) s /\
  (forall error, outcome r = inl error ->
     exists before failing,
       runs = before ++ [failing] /\ outcome failing = inl error /\
       Forall (fun run => returned run = true) before /\
       length before < length transactions).
Proof.
  revert signed s. induction transactions as [| t rest IH]; intros signed s; cbn zeta.
  - split; [reflexivity | intros error [=]].
  - rewrite signAllTransactions_loop_cons. cbn [sign_each map]. cbn zeta.
    rewrite last_cons_default. unfold returned at 1 2.
    destruct (outcome (signTransaction t s)) as [error | t'] eqn:Ho; cbn [outcome final].
    + split; [reflexivity |]. intros error' [= <-].
      exists [], (signTransaction t s). cbn. repeat split; [exact Ho | constructor | lia].
    + destruct (IH (signed ++ [t']) (final (signTransaction t s))) as (IHf & IHe).
      cbn zeta in IHf, IHe. split; [exact IHf |].
      intros error Hout. destruct (IHe error Hout) as (before & failing & Hr & Hf & Hall & Hlen).
      exists (signTransaction t s :: before), failing. rewrite Hr. cbn [app length].
      repeat split; [exact Hf | | lia].
      constructor; [unfold returned; rewrite Ho; reflexivity | exact Hall].
Qed.

(** X5. [signAllTransactions] stops at the first transaction that fails
    and undoes nothing: it raises the error of that run, every run before
    it had returned (so their signatures stay attached), no later
    transaction is tried, and the state it leaves is the one left by the
    last run it made. *)
Theorem signAllTransactions_stops (transactions : list Transaction) (s : Adapter) :
  let r := signAllTransactions transactions s in
  let runs := sign_each transactions s in
  final r = last (map (fun run => final run) runs) s /\
  (forall error, outcome r = inl error ->
     exists before failing,
       runs = before ++ [failing] /\ outcome failing = inl error /\
       Forall (fun run => returned run = true) before /\
       length before < length transactions).
Proof.
  exact (signAllTransactions_loop_stops transactions [] s).
Qed.

Lemma signAllTransactions_loop_sleeps (transactions signed : list Transaction)
    (s : Adapter) :
  let r := signAllTransactions_loop transactions signed s in
  sleeps (trace r) = repeat 500%Z (length (completed (sign_each transactions s))) /\
  (forall result, outcome r = inr result ->
     sleeps (trace r) = repeat 500%Z (length transactions) /\
     (transactions <> [] -> exists before, trace r = before ++ [Sleep 500])).
Proof.
  revert signed s. induction transactions as [| t rest IH]; intros signed s; cbn zeta.
  - split; [reflexivity |]. intros result _. split; [reflexivity |].
    intros Hne. elim Hne. reflexivity.
  - rewrite signAllTransactions_loop_cons. cbn [sign_each]. cbn zeta.
    destruct (signTransaction_observed t s) as (_ & Hs & _). cbn zeta in Hs.
    unfold completed. cbn [filter].
    destruct (outcome (signTransaction t s)) as [error | t'] eqn:Ho.
    + assert (Hret : returned (signTransaction t s) = false)
        by (unfold returned; rewrite Ho; reflexivity).
      rewrite !Hret. cbn [outcome trace filter length repeat].
      split; [exact Hs | intros result [=]].
    + assert (Hret : returned (signTransaction t s) = true)
        by (unfold returned; rewrite Ho; reflexivity).
      rewrite !Hret. cbn [outcome trace].
      destruct (IH (signed ++ [t']) (final (signTransaction t s))) as (IHs & IHr).
      cbn zeta in IHs, IHr. fold (completed (sign_each rest (final (signTransaction t s)))).
      rewrite sleeps_app, Hs. cbn [app sleeps flat_map sleep_of length repeat].
      fold (sleeps (trace (signAllTransactions_loop rest (signed ++ [t'])
                             (final (signTransaction t s))))).
      split; [rewrite IHs; reflexivity |].
      intros result Hout. destruct (IHr result Hout) as (Hrep & Hlast).
      split; [rewrite Hrep; reflexivity |]. intros _.
      destruct rest as [| t2 rest'].
      * exists (trace (signTransaction t s)). reflexivity.
      * destruct Hlast as [before Hb]; [discriminate |]. rewrite Hb.
        exists (trace (signTransaction t s) ++ Sleep 500 :: before).
        rewrite <- app_assoc. reflexivity.
Qed.

(** X6. [signAllTransactions] awaits one timer of 500 ms after every
    transaction it signs and no other: as many timers as runs that
    returned.  When it returns it has slept once per transaction, the
    last time after the last transaction, just before returning. *)
Theorem signAllTransactions_sleeps (transactions : list Transaction) (s : Adapter) :
  let r := signAllTransactions transactions s in
  sleeps (trace r) = repeat 500%Z (length (completed (sign_each transactions s))) /\
  (forall result, outcome r = inr result ->
     sleeps (trace r) = repeat 500%Z (length transactions) /\
     (transactions <> [] -> exists before, trace r = before ++ [Sleep 500])).
Proof.
  exact (signAllTransactions_loop_sleeps transactions [] s).
Qed.

(** *** Connecting *)

(** X7. The listeners receive at most one event from [connect()]: the
    error it raises when it raises, 'connect' when it returns after
    having called [wallet.connect()], and nothing when it returns without
    having called it (the no-op). *)
Theorem connect_emits (s : Adapter) :
  let r := connect s in
  emitted (trace r) =
    match outcome r with
    | inl error => [Emit_error error]
    | inr _ => if Nat.eqb (connections (trace r)) 0 then [] else [Emit_connect]
    end.
Proof.
  destruct s as [c w p e]. unfold connect, connect_body. step_monad.
  split_host; reflexivity.
Qed.

(** X8. [connect()] calls [wallet.connect()] only on the object found at
    [window.coin98.sol] at that moment, only if that object carries the
    [isCoin98] flag, and only if the adapter was neither connected (as
    the stored wallet reports it) nor connecting when called. *)
Theorem connect_asks_only_coin98 (s : Adapter) (wallet : Coin98Wallet) :
  In (Call (connect_ wallet)) (trace (connect s)) ->
  let r0 := connected s in
  outcome r0 = inr false /\
  connecting s = false /\
  window_coin98_sol (env (final r0)) = Some wallet /\
  isCoin98 wallet (env (final r0)) = true.
Proof.
  destruct s as [c [stored |] p e]; cbn zeta; unfold connect, connect_body; step_monad;
    reduce_run; [destruct (wallet_isConnected stored e) as [b w1]; reduce_run |];
    split_host; intros Hin; in_cases; injection Hin as <-; repeat split; congruence.
Qed.

(** X9. When [connect()] emits 'connect', it has returned, the handle it
    stored is the object found at [window.coin98.sol], the public key it
    stored is the parse of the first of the accounts that object's
    [connect()] resolved to (the other accounts are ignored), and the
    world is as that call left it. *)
Theorem connect_stores (s : Adapter) :
  let r := connect s in
  let w0 := env (final (connected s)) in
  In Emit_connect (trace r) ->
  exists wallet accounts key w,
    window_coin98_sol w0 = Some wallet /\
    wallet_connect wallet w0 = (inr accounts, w) /\
    new_PublicKey (hd_error accounts) = inr key /\
    outcome r = inr tt /\
    _wallet (final r) = Some wallet /\
    get_publicKey (final r) = Some key /\
    env (final r) = w.
Proof.
  destruct s as [c [stored |] p e]; cbn zeta; unfold connect, connect_body; step_monad;
    reduce_run; [destruct (wallet_isConnected stored e) as [b w1]; reduce_run |];
    match goal with |- _ -> ?C => set (stores := C) end;
    split_host; intros Hin; in_cases; subst stores; replay;
    do 4 eexists; repeat split; eassumption.
Qed.

(** *** Disconnecting *)

Lemma disconnect_no_handle (s : Adapter) :
  _wallet s = None -> disconnect s = mkRun (inr tt) s [Emit_disconnect].
Proof.
  intros Hw. unfold disconnect. step_monad. rewrite Hw. reflexivity.
Qed.

(** X10. [disconnect()] raises exactly when a handle is stored and the
    wallet's own disconnect rejects, and what it raises is that
    rejection; the listeners receive 'disconnect', once, when it returns,
    and nothing, not even an error, when it raises. *)
Theorem disconnect_emits (s : Adapter) :
  let r := disconnect s in
  (forall error,
     outcome r = inl error <->
     exists wallet w,
       _wallet s = Some wallet /\ wallet_disconnect wallet (env s) = (inl error, w)) /\
  emitted (trace r) = if returned r then [Emit_disconnect] else [].
Proof.
  destruct s as [c w p e]. unfold disconnect, returned. step_monad.
  destruct w as [wallet |]; reduce_run.
  - destruct (wallet_disconnect wallet e) as [[err | []] w1] eqn:Ed; reduce_run.
    + split; [| reflexivity]. intros error. split.
      * intros [= <-]. exists wallet, w1. split; [reflexivity | exact Ed].
      * intros (wallet' & w2 & [= <-] & E). rewrite Ed in E. congruence.
    + split; [| reflexivity]. intros error. split; [intros [=] |].
      intros (wallet' & w2 & [= <-] & E). rewrite Ed in E. discriminate E.
  - split; [| reflexivity]. intros error. split; [intros [=] |].
    intros (wallet' & w2 & [=] & _).
Qed.

(** X11. After [disconnect()], whether it returned or raised and
    however the world has moved since, a second [disconnect()] calls
    nothing: it emits 'disconnect', returns and leaves the state as it
    is.  The wallet's own disconnect is never tried a second time. *)
Theorem disconnect_twice (s : Adapter) (w : world) :
  let s1 := set_env w (final (disconnect s)) in
  disconnect s1 = mkRun (inr tt) s1 [Emit_disconnect].
Proof.
  cbn zeta. apply disconnect_no_handle.
  destruct (disconnect_cases s) as (_ & Hw & _). exact Hw.
Qed.

(** X12. After [disconnect()], whether it returned or raised and however
    the world has moved since, [signTransaction], [signMessage] and
    [signAllTransactions] of a non-empty list raise
    WalletNotConnectedError without any call to the host. *)
Theorem signing_after_disconnect (s : Adapter) (w : world) :
  let s1 := set_env w (final (disconnect s)) in
  let refused {A} : Run WalletError A :=
    mkRun (inl WalletNotConnectedError) s1 [Emit_error WalletNotConnectedError] in
  (forall transaction, signTransaction transaction s1 = refused) /\
  (forall transaction rest, signAllTransactions (transaction :: rest) s1 = refused) /\
  (forall message, signMessage message s1 = refused).
Proof.
  cbn zeta.
  assert (Hw : _wallet (set_env w (final (disconnect s))) = None).
  { destruct (disconnect_cases s) as (_ & Hw & _). exact Hw. }
  revert Hw. generalize (set_env w (final (disconnect s))). intros s1 Hw.
  assert (Ht : forall transaction, signTransaction transaction s1 =
                 mkRun (inl WalletNotConnectedError) s1 [Emit_error WalletNotConnectedError]).
  { intros transaction. unfold signTransaction. step_monad. rewrite Hw. reflexivity. }
  split; [exact Ht | split].
  - intros transaction rest. unfold signAllTransactions.
    rewrite signAllTransactions_loop_cons. cbn zeta. rewrite Ht. reflexivity.
  - intros message. unfold signMessage. step_monad. rewrite Hw. reflexivity.
Qed.

(** *** Across calls *)

(** X13. In every state an adapter goes through, whenever [connected]
    answers true, [publicKey] is non-null (the converse fails when the
    wallet answers [isConnected()] with false after a connection). *)
Theorem connected_has_publicKey (h : list (Method * bool)) (s : Adapter) :
  reachable h s ->
  outcome (connected s) = inr true ->
  get_publicKey s <> None.
Proof.
  intros Hr Hc. destruct (reachable_invariant Hr) as (_ & Hcoh & _).
  unfold coherent in Hcoh. unfold get_publicKey. intros Hp.
  apply Hcoh in Hp. unfold connected in Hc. rewrite Hp in Hc. discriminate Hc.
Qed.

(** X14. In every state an adapter goes through, a [connect()] that
    follows a [disconnect()] is never skipped: it asks the extension
    again, and if it returns it has emitted 'connect' and stored a handle
    and a public key. *)
Theorem connect_after_disconnect (h : list (Method * bool)) (s : Adapter) (w : world) :
  reachable h s ->
  let s1 := set_env w (final (disconnect s)) in
  let r := connect s1 in
  outcome r = inr tt ->
  emitted (trace r) = [Emit_connect] /\
  connections (trace r) = 1 /\
  _wallet (final r) <> None /\
  get_publicKey (final r) <> None.
Proof.
  intros Hr s1 r. destruct (reachable_invariant Hr) as (Hc & _ & _).
  destruct (disconnect_cases s) as (Hc' & Hw & _). cbn zeta in Hc', Hw.
  assert (Hc1 : _connecting s1 = false)
    by (subst s1; cbn [set_env _connecting]; rewrite Hc'; exact Hc).
  assert (Hw1 : _wallet s1 = None) by (subst s1; exact Hw).
  subst r. revert Hc1 Hw1. generalize s1. intros [c0 w0 p0 e0]. cbn [_connecting _wallet].
  intros -> ->. unfold connect, connect_body, get_publicKey. step_monad.
  split_host; intros Ho; try discriminate Ho; repeat split; discriminate.
Qed.

(** *** The constructor and [ready] *)

Section Ready.

Context {W : Window}.

Lemma or_else_truthy (v : option number) (d : number) :
  truthy d = true -> truthy (or_else v d) = true.
Proof.
  intros Hd. unfold or_else. destruct v as [n |]; [| exact Hd].
  destruct (truthy n) eqn:Hn; [exact Hn | exact Hd].
Qed.

(** X15. The constructor starts polling exactly when the adapter is not
    ready, and never with a zero or NaN interval or count: a configured
    value is passed on as it is when it is truthy, and is replaced by the
    default, 1000 for the interval and 3 for the count, when it is
    missing, zero or NaN (so a count of 0 does not turn polling off). *)
Theorem constructor_polling (config : option Coin98WalletAdapterConfig) (w : world) :
  let given field :=
    match config with Some c => field c | None => None end in
  (constructor_polls config w = None <-> ready (constructor w) = true) /\
  (forall interval count,
     constructor_polls config w = Some (interval, count) ->
     truthy interval = true /\ truthy count = true /\
     (forall n, given pollInterval = Some n -> truthy n = true -> interval = n) /\
     (forall n, given pollCount = Some n -> truthy n = true -> count = n) /\
     ((forall n, given pollInterval = Some n -> truthy n = false) ->
      interval = finite 1000 0) /\
     ((forall n, given pollCount = Some n -> truthy n = false) ->
      count = finite 3 0)).
Proof.
  cbn zeta. unfold constructor_polls.
  destruct (ready (constructor w)); cbn [negb].
  - split; [split; reflexivity | intros interval count [=]].
  - split; [split; discriminate |].
    intros interval count [= <- <-].
    split; [apply or_else_truthy; reflexivity |].
    split; [apply or_else_truthy; reflexivity |].
    destruct config as [[i n] |]; cbn [pollInterval pollCount].
    + split; [| split; [| split]].
      * intros k -> Hk. cbn [or_else]. rewrite Hk. reflexivity.
      * intros k -> Hk. cbn [or_else]. rewrite Hk. reflexivity.
      * intros Hall. destruct i as [k |]; cbn [or_else]; [| reflexivity].
        rewrite (Hall k eq_refl). reflexivity.
      * intros Hall. destruct n as [k |]; cbn [or_else]; [| reflexivity].
        rewrite (Hall k eq_refl). reflexivity.
    + split; [| split; [| split]].
      * intros k [=].
      * intros k [=].
      * intros _. reflexivity.
      * intros _. reflexivity.
Qed.

(** X16. While the adapter is not ready, [connect()] on an adapter that
    holds no handle and is not connecting raises WalletNotFoundError: it
    emits that error, calls nothing on the host, and leaves the state as
    it was. *)
Theorem connect_when_not_ready (s : Adapter) :
  ready s = false ->
  _wallet s = None ->
  connecting s = false ->
  connect s = mkRun (inl WalletNotFoundError) s [Emit_error WalletNotFoundError].
Proof.
  unfold ready, connecting. destruct s as [c w p e]. cbn [env _wallet _connecting].
  intros Hr -> ->. apply window_coin98_absent in Hr.
  unfold connect, connect_body. step_monad. reduce_run. rewrite Hr. reflexivity.
Qed.

End Ready.

End Properties.

(** *** The connected property *)

(** C10. [connected] is the wallet's answer, not the adapter's state:
    false, with no call made, when no handle is stored, and otherwise
    whatever the stored wallet's [isConnected()] answers (or throws); so
    it can be false while [publicKey] is non-null, as after a [connect()]
    that returned on a wallet that answers [isConnected()] with false. *)
Theorem connected_is_delegated :
  (forall (H : Host) (s : Adapter),
     (_wallet s = None -> connected s = mkRun (inr false) s []) /\
     (forall wallet, _wallet s = Some wallet ->
        (forall b w,
           wallet_isConnected wallet (env s) = (inr b, w) ->
           connected s = mkRun (inr b) (set_env w s) [Call (isConnected_ wallet)]) /\
        (forall e w,
           wallet_isConnected wallet (env s) = (inl e, w) ->
           connected s =
             mkRun (inl e) (set_env w s)
               [Call (isConnected_ wallet); Failed (isConnected_ wallet) e]))) /\
  (exists (H : Host) (w : world),
     let r := connect (constructor w) in
     outcome r = inr tt /\
     get_publicKey (final r) <> None /\
     outcome (connected (final r)) = inr false).
Proof.
  split.
  - intros H s. unfold connected, await. split.
    + intros ->. reflexivity.
    + intros wallet ->. split; intros x w ->; reflexivity.
  - exists Scripted.host, Scripted.page_off. cbn. repeat split. discriminate.
Qed.

(** ** The properties at work on the scripted extension *)

Module Runs.

Import Scripted.

#[local] Existing Instance host.

Lemma connected_is_delegated_witness :
  _wallet (constructor (H := host) page_ok) = None /\
  connected (H := host) (constructor (H := host) page_ok) =
    mkRun (inr false) (constructor (H := host) page_ok) [].
Proof.
  split; [reflexivity |].
  apply (proj1 connected_is_delegated host (constructor (H := host) page_ok)).
  reflexivity.
Defined.

Lemma signTransaction_not_connected_witness :
  _wallet (constructor (H := host) page_ok) = None /\
  signTransaction (H := host) 7 (constructor (H := host) page_ok) =
    mkRun (inl WalletNotConnectedError) (constructor (H := host) page_ok)
      [Emit_error WalletNotConnectedError].
Proof.
  split; [reflexivity |].
  apply (signTransaction_not_connected (H := host)). reflexivity.
Defined.

(** C3, as stated, fails: on a wallet that answers [isConnected()] with
    false, a second [connect()] after one that returned, with no
    disconnect in between, invokes [wallet.connect()] a second time. *)
Lemma connect_twice_counterexample :
  let r1 := connect (H := host) (constructor (H := host) page_off) in
  let r2 := connect (H := host) (final r1) in
  outcome r1 = inr tt /\
  trace r2 = [Call (isConnected_ tt); Call (connect_ tt);
              Call (PublicKey_ (Some key1)); Emit_connect] /\
  connections (trace r1 ++ trace r2) = 2 /\
  ~ connections (trace r1 ++ trace r2) <= 1.
Proof.
  cbn. repeat split. lia.
Qed.

Lemma connect_twice_witness :
  let r1 := connect (H := host) (constructor (H := host) page_ok) in
  let r2 := connect (H := host) (final r1) in
  outcome r1 = inr tt /\
  outcome (connected (H := host) (final r1)) = inr true /\
  outcome r2 = inr tt /\
  connections (trace r1 ++ trace r2) <= 1.
Proof.
  pose proof (connect_twice (H := host) (constructor (H := host) page_ok)
                (env (connected_on page_ok)) eq_refl eq_refl) as (Ho & _ & _ & _ & _ & Hc).
  split; [reflexivity | split; [reflexivity | split; [exact Ho | exact Hc]]].
Defined.

Lemma publicKey_iff_wallet_witness :
  reachable [(m_connect, true)] (connected_on page_ok) /\
  coherent (connected_on page_ok) /\
  (get_publicKey (connected_on page_ok) <> None <->
   _wallet (connected_on page_ok) <> None /\
   connected_since_disconnect (H := host) [(m_connect, true)] = true).
Proof.
  assert (Hr : reachable [(m_connect, true)] (connected_on page_ok))
    by exact (reachable_call m_connect (reachable_new (H := host) page_ok)).
  split; [exact Hr |].
  exact (proj1 (publicKey_iff_wallet (H := host)) _ _ Hr).
Defined.

(** C2, as stated, fails: when the wallet's own disconnect fails,
    [disconnect()] on a connected adapter raises that failure and emits
    no 'disconnect' (the handle and the public key are cleared all the
    same). *)
Lemma disconnect_counterexample :
  let s := connected_on page_boom in
  let r := disconnect s in
  reachable [(m_connect, true)] s /\
  outcome r = inl "Extension context invalidated" /\
  trace r = [Call (disconnect_ tt); Failed (disconnect_ tt) "Extension context invalidated"] /\
  ~ In Emit_disconnect (trace r).
Proof.
  cbn zeta. split; [| cbn; repeat split].
  - exact (reachable_call m_connect (reachable_new (H := host) page_boom)).
  - intros [E | [E | []]]; discriminate E.
Qed.

Lemma disconnect_clears_witness :
  let s := connected_on page_ok in
  let r := disconnect s in
  reachable [(m_connect, true)] s /\
  get_publicKey (final r) = None /\
  outcome r = inr tt /\
  exists before, trace r = before ++ [Emit_disconnect].
Proof.
  cbn zeta.
  assert (Hr : reachable [(m_connect, true)] (connected_on page_ok))
    by exact (reachable_call m_connect (reachable_new (H := host) page_ok)).
  destruct (disconnect_clears Hr) as (Hp & _ & He & _ & Ho).
  assert (Hout : outcome (disconnect (connected_on page_ok)) = inr tt)
    by exact (Ho tt _ eq_refl eq_refl).
  split; [exact Hr | split; [exact Hp | split; [exact Hout | exact (He Hout)]]].
Defined.

(** C5, as stated, fails: [connect()] can fail on an invalid account and
    leave a non-null [publicKey], the one of an earlier connection that
    the wallet no longer reports as connected. *)
Lemma connect_invalid_account_counterexample :
  let r1 := connect (H := host) (constructor (H := host) page_off_bad) in
  let r2 := connect (H := host) (final r1) in
  outcome r1 = inr tt /\
  outcome r2 = inl (WalletPublicKeyError (Some "Invalid public key input")
                      "Invalid public key input") /\
  get_publicKey (final r2) = Some key1 /\
  get_publicKey (final r2) <> None.
Proof.
  cbn. repeat split. discriminate.
Qed.

Lemma connect_invalid_account_witness :
  let s := constructor (H := host) page_bad in
  let r := connect s in
  new_PublicKey (hd_error ["not-a-key"]) = inl "Invalid public key input" /\
  outcome r = inl (WalletPublicKeyError (Some "Invalid public key input")
                     "Invalid public key input") /\
  get_publicKey (final r) = None.
Proof.
  cbn zeta.
  destruct (connect_invalid_account (H := host) (constructor (H := host) page_bad)
              (wallet := tt) (accounts := ["not-a-key"])
              (w := env (connected_on page_bad)) (e := "Invalid public key input")
              eq_refl eq_refl eq_refl eq_refl eq_refl eq_refl) as (Ho & _ & _ & _ & Hp).
  split; [reflexivity | split; [exact Ho | exact (Hp eq_refl)]].
Defined.

(** C1, as stated, fails for [disconnect]: a failure of the wallet's own
    disconnect comes out of [disconnect()] as it is, not wrapped in any
    kind of the taxonomy, and no 'error' event is emitted. *)
Lemma disconnect_failure_counterexample :
  let r := disconnect (connected_on page_boom) in
  In (Failed (disconnect_ tt) "Extension context invalidated") (trace r) /\
  outcome r = inl "Extension context invalidated" /\
  forall error, ~ In (Emit_error error) (trace r).
Proof.
  cbn. repeat split; auto.
  intros error [E | [E | []]]; discriminate E.
Qed.

Lemma failures_wrapped_and_emitted_witness :
  let r := connect (H := host) (constructor (H := host) page_refuse) in
  let error := WalletAccountError (Some "User rejected the request")
                 "User rejected the request" in
  let r' := connect (H := host) (connected_on page_throws) in
  let error' := Unwrapped (H := host) "Extension context invalidated" in
  (In (Failed (connect_ tt) "User rejected the request") (trace r) /\
   outcome r = inl error /\
   exists before, trace r = before ++ [Emit_error error]) /\
  (In (Failed (isConnected_ tt) "Extension context invalidated") (trace r') /\
   outcome r' = inl error' /\
   exists before, trace r' = before ++ [Emit_error error']).
Proof.
  cbn zeta. split.
  - destruct (failures_wrapped_and_emitted (H := host) (constructor (H := host) page_refuse))
      as ((He & Hw) & _).
    assert (Hin : In (Failed (connect_ tt) "User rejected the request")
                    (trace (connect (H := host) (constructor (H := host) page_refuse))))
      by (right; left; reflexivity).
    pose proof (Hw _ _ Hin) as Ho.
    split; [exact Hin | split; [exact Ho | exact (He _ Ho)]].
  - destruct (failures_wrapped_and_emitted (H := host) (connected_on page_throws))
      as ((He & Hw) & _).
    assert (Hin : In (Failed (isConnected_ tt) "Extension context invalidated")
                    (trace (connect (H := host) (connected_on page_throws))))
      by (right; left; reflexivity).
    pose proof (Hw _ _ Hin) as Ho.
    split; [exact Hin | split; [exact Ho | exact (He _ Ho)]].
Defined.

(** C8, as stated, fails: a signature string with an unpaired surrogate
    does not come back from the bytes [signMessage] returns (the encoder
    has put U+FFFD in its place), nor does one that starts with U+FEFF
    (the decoder drops it). *)
Lemma signMessage_counterexample :
  let message := list_byte_of_string "hello" in
  let r1 := signMessage (H := host) message (connected_on page_surrogate) in
  let r2 := signMessage (H := host) message (connected_on page_bom) in
  outcome r1 = inr (map byte_of_Z [0xEF; 0xBF; 0xBD]%Z) /\
  TextDecoder_decode (map byte_of_Z [0xEF; 0xBF; 0xBD]%Z) = [0xFFFD]%Z /\
  TextDecoder_decode (map byte_of_Z [0xEF; 0xBF; 0xBD]%Z) <> sig response_surrogate /\
  outcome r2 = inr (map byte_of_Z [0xEF; 0xBB; 0xBF; 0x41]%Z) /\
  TextDecoder_decode (map byte_of_Z [0xEF; 0xBB; 0xBF; 0x41]%Z) = [0x41]%Z /\
  TextDecoder_decode (map byte_of_Z [0xEF; 0xBB; 0xBF; 0x41]%Z) <> sig response_bom.
Proof.
  cbn zeta. repeat split; discriminate.
Qed.

Lemma signMessage_roundtrip_witness :
  let s := connected_on page_ok in
  let r := signMessage (H := host) (list_byte_of_string "hello") s in
  _wallet s = Some tt /\
  well_formed (js "3xSig") = true /\
  has_bom (js "3xSig") = false /\
  outcome r = inr (list_byte_of_string "3xSig") /\
  trace r = [Call (request_ tt "sol_sign" [inr (js "hello")])] /\
  (forall bytes, outcome r = inr bytes -> TextDecoder_decode bytes = js "3xSig").
Proof.
  cbn zeta.
  destruct (signMessage_roundtrip (H := host) (connected_on page_ok)
              (list_byte_of_string "hello")) as (_ & Hs).
  destruct (Hs tt eq_refl) as (Hok & _).
  destruct (Hok (response key1 "3xSig" "hello") _ eq_refl) as (Hrun & Hdec).
  split; [reflexivity | split; [reflexivity | split; [reflexivity | split; [| split]]]].
  - rewrite Hrun. reflexivity.
  - rewrite Hrun. reflexivity.
  - exact (Hdec eq_refl eq_refl).
Defined.

Lemma signAllTransactions_sequential_witness :
  let r := signAllTransactions (H := host) [5; 7] (connected_on page_ok) in
  outcome r = inr [5; 7] /\
  signing_order (trace r) = [5; 7] /\
  length (sign_each (H := host) [5; 7] (connected_on page_ok)) = 2.
Proof.
  cbn zeta.
  destruct (signAllTransactions_sequential (H := host) [5; 7] (connected_on page_ok))
    as (_ & _ & Hr).
  destruct (Hr [5; 7] eq_refl) as (_ & Hs & Hl & _).
  split; [reflexivity | split; [exact Hs | exact Hl]].
Defined.

(** *** The further properties *)

#[local] Existing Instance window.

Lemma requests_go_to_the_handle_witness :
  let s := connected_on page_ok in
  In (Call (request_ tt "sol_sign" [inl 5])) (trace (signTransaction (H := host) 5 s)) /\
  _wallet s = Some tt.
Proof.
  cbn zeta.
  assert (Hin : In (Call (request_ tt "sol_sign" [inl 5]))
                  (trace (signTransaction (H := host) 5 (connected_on page_ok))))
    by (left; reflexivity).
  split; [exact Hin |].
  exact (proj1 (proj1 (requests_go_to_the_handle (H := host) (connected_on page_ok)
                         tt "sol_sign" [inl 5]) 5 Hin)).
Defined.

Lemma signTransaction_attaches_witness :
  let s := connected_on page_ok in
  let bytes := list_byte_of_string "3xSig" in
  In (Call (addSignature_ 5 key1 bytes)) (trace (signTransaction (H := host) 5 s)) /\
  exists wallet response w,
    _wallet s = Some wallet /\
    wallet_request wallet "sol_sign" [inl 5] (env s) = (inr response, w) /\
    new_PublicKey (Some (publicKey response)) = inr key1 /\
    bs58_decode (signature response) = inr bytes.
Proof.
  cbn zeta.
  assert (Hin : In (Call (addSignature_ 5 key1 (list_byte_of_string "3xSig")))
                  (trace (signTransaction (H := host) 5 (connected_on page_ok))))
    by (right; right; right; left; reflexivity).
  split; [exact Hin |].
  exact (proj2 (signTransaction_attaches (H := host) 5 5 (connected_on page_ok)
                  key1 (list_byte_of_string "3xSig") Hin)).
Defined.

Lemma signAllTransactions_not_connected_witness :
  let s := constructor (H := host) page_ok in
  _wallet s = None /\
  signAllTransactions (H := host) [5; 7] s =
    mkRun (inl WalletNotConnectedError) s [Emit_error WalletNotConnectedError] /\
  signAllTransactions (H := host) [] s = mkRun (inr []) s [].
Proof.
  cbn zeta. split; [reflexivity | split].
  - exact (signAllTransactions_not_connected (H := host) [5; 7]
             (constructor (H := host) page_ok) eq_refl).
  - exact (signAllTransactions_not_connected (H := host) []
             (constructor (H := host) page_ok) eq_refl).
Defined.

Lemma signAllTransactions_stops_witness :
  let s := connected_on page_refuses_second in
  let r := signAllTransactions (H := host) [5; 7; 9] s in
  let error := WalletSignTransactionError (Some "User rejected the request")
                 "User rejected the request" in
  outcome r = inl error /\
  signing_order (trace r) = [5; 7] /\
  exists before failing,
    sign_each (H := host) [5; 7; 9] s = before ++ [failing] /\
    outcome failing = inl error /\
    Forall (fun run => returned run = true) before /\
    length before < 3.
Proof.
  cbn zeta. split; [reflexivity | split; [reflexivity |]].
  exact (proj2 (signAllTransactions_stops (H := host) [5; 7; 9]
                  (connected_on page_refuses_second)) _ eq_refl).
Defined.

Lemma signAllTransactions_sleeps_witness :
  let r := signAllTransactions (H := host) [5; 7] (connected_on page_ok) in
  outcome r = inr [5; 7] /\
  sleeps (trace r) = [500; 500]%Z /\
  exists before, trace r = before ++ [Sleep 500].
Proof.
  cbn zeta.
  destruct (proj2 (signAllTransactions_sleeps (H := host) [5; 7] (connected_on page_ok))
              [5; 7] eq_refl) as (Hs & Hlast).
  split; [reflexivity | split; [exact Hs | apply Hlast; discriminate]].
Defined.

Lemma connect_asks_only_coin98_witness :
  let s := constructor (H := host) page_ok in
  In (Call (connect_ tt)) (trace (connect s)) /\
  window_coin98_sol (env s) = Some tt /\
  isCoin98 tt (env s) = true.
Proof.
  cbn zeta.
  assert (Hin : In (Call (connect_ tt))
                  (trace (connect (H := host) (constructor (H := host) page_ok))))
    by (left; reflexivity).
  destruct (connect_asks_only_coin98 (H := host) (constructor (H := host) page_ok) tt Hin)
    as (_ & _ & Hsol & Hflag).
  split; [exact Hin | split; [exact Hsol | exact Hflag]].
Defined.

Lemma connect_stores_witness :
  let r := connect (H := host) (constructor (H := host) page_ok) in
  In Emit_connect (trace r) /\
  exists wallet accounts key w,
    window_coin98_sol page_ok = Some wallet /\
    wallet_connect wallet page_ok = (inr accounts, w) /\
    new_PublicKey (hd_error accounts) = inr key /\
    outcome r = inr tt /\
    _wallet (final r) = Some wallet /\
    get_publicKey (final r) = Some key /\
    env (final r) = w.
Proof.
  cbn zeta.
  assert (Hin : In Emit_connect
                  (trace (connect (H := host) (constructor (H := host) page_ok))))
    by (right; right; left; reflexivity).
  split; [exact Hin |].
  exact (connect_stores (H := host) (constructor (H := host) page_ok) Hin).
Defined.

Lemma disconnect_emits_witness :
  let s := connected_on page_boom in
  let r := disconnect s in
  wallet_disconnect tt (env s) = (inl "Extension context invalidated", env s) /\
  outcome r = inl "Extension context invalidated" /\
  emitted (trace r) = [].
Proof.
  cbn zeta.
  destruct (disconnect_emits (H := host) (connected_on page_boom)) as (Hraise & Hev).
  split; [reflexivity | split; [| exact Hev]].
  apply Hraise. exists tt, (env (connected_on page_boom)). split; reflexivity.
Defined.

Lemma connected_has_publicKey_witness :
  let s := connected_on page_ok in
  reachable [(m_connect, true)] s /\
  outcome (connected (H := host) s) = inr true /\
  get_publicKey s <> None.
Proof.
  cbn zeta.
  assert (Hr : reachable [(m_connect, true)] (connected_on page_ok))
    by exact (reachable_call m_connect (reachable_new (H := host) page_ok)).
  split; [exact Hr | split; [reflexivity |]].
  exact (connected_has_publicKey Hr eq_refl).
Defined.

Lemma connect_after_disconnect_witness :
  let s := connected_on page_off in
  let s1 := final (disconnect s) in
  let r := connect s1 in
  reachable [(m_connect, true)] s /\
  outcome r = inr tt /\
  emitted (trace r) = [Emit_connect] /\
  get_publicKey (final r) <> None.
Proof.
  cbn zeta.
  assert (Hr : reachable [(m_connect, true)] (connected_on page_off))
    by exact (reachable_call m_connect (reachable_new (H := host) page_off)).
  destruct (connect_after_disconnect (env (final (disconnect (connected_on page_off))))
              Hr eq_refl) as (He & _ & _ & Hp).
  split; [exact Hr | split; [reflexivity | split; [exact He | exact Hp]]].
Defined.

Lemma constructor_polling_witness :
  let config := Some {| pollInterval := Some (finite 0 0); pollCount := Some (finite 5 0) |} in
  ready (constructor (H := host) page_empty) = false /\
  constructor_polls config page_empty = Some (finite 1000 0, finite 5 0) /\
  truthy (finite 1000 0) = true /\ truthy (finite 5 0) = true.
Proof.
  cbn zeta.
  assert (Hpoll : constructor_polls
                    (Some {| pollInterval := Some (finite 0 0);
                             pollCount := Some (finite 5 0) |}) page_empty =
                  Some (finite 1000 0, finite 5 0)) by reflexivity.
  destruct (proj2 (constructor_polling (H := host)
                     (Some {| pollInterval := Some (finite 0 0);
                              pollCount := Some (finite 5 0) |}) page_empty)
              (finite 1000 0) (finite 5 0) Hpoll) as (Hi & Hc & _).
  split; [reflexivity | split; [exact Hpoll | split; [exact Hi | exact Hc]]].
Defined.

Lemma connect_when_not_ready_witness :
  let s := constructor (H := host) page_empty in
  ready s = false /\
  connect s = mkRun (inl WalletNotFoundError) s [Emit_error WalletNotFoundError].
Proof.
  cbn zeta. split; [reflexivity |].
  exact (connect_when_not_ready (H := host) (constructor (H := host) page_empty)
           eq_refl eq_refl eq_refl).
Defined.

End Runs.
